(** * A shallow embedding of [landscape_api/base.py] (Landscape API client)

    Python strings are modelled as [string] of the Standard Library, read as
    the UTF-8 byte sequence of the text (Rocq's [ascii] is an 8-bit byte).
    Python dictionaries are association lists kept in insertion order;
    exceptions are the constructors of [py_error], threaded through the
    error monad [res]. *)

From Stdlib Require Import Ascii String List Bool ZArith NArith Lia.
From Stdlib Require Import Numbers.DecimalString Sorting.Permutation Sorting.Sorted.
From Stdlib Require Numbers.DecimalZ Floats.
Import ListNotations.
Set Warnings "-register-all".
Open Scope list_scope.
Open Scope string_scope.

(* ------------------------------------------------------------------ *)
(** ** Bytes and characters *)

Definition code (c : ascii) : nat := nat_of_ascii c.

Definition is_upper (c : ascii) : bool := (65 <=? code c)%nat && (code c <=? 90)%nat.
Definition is_lower (c : ascii) : bool := (97 <=? code c)%nat && (code c <=? 122)%nat.
Definition is_digit (c : ascii) : bool := (48 <=? code c)%nat && (code c <=? 57)%nat.

(** [str.lower] on ASCII text, one byte at a time: upper-case letters are
    lowered.  Python also lowers letters outside ASCII (['Ä'] to ['ä']),
    which this function keeps as they are: the properties below apply it to
    ASCII text only. *)
Definition lower_char (c : ascii) : ascii :=
  if is_upper c then ascii_of_nat (code c + 32) else c.

Fixpoint lower (s : string) : string :=
  match s with
  | EmptyString => EmptyString
  | String c r => String (lower_char c) (lower r)
  end.

Fixpoint to_list (s : string) : list ascii :=
  match s with EmptyString => [] | String c r => c :: to_list r end.

Fixpoint of_list (l : list ascii) : string :=
  match l with [] => EmptyString | c :: r => String c (of_list r) end.

Definition schar (c : ascii) : string := String c EmptyString.

Fixpoint join (sep : string) (l : list string) : string :=
  match l with
  | [] => ""
  | [x] => x
  | x :: r => x ++ sep ++ join sep r
  end.

(** Python's [str(int)]. *)
Definition z_str (z : Z) : string := NilEmpty.string_of_int (Z.to_int z).
Definition nat_str (n : nat) : string := z_str (Z.of_nat n).

Definition pad (w : nat) (z : Z) : string :=
  let s := z_str z in
  append (of_list (repeat "0"%char (w - String.length s))) s.

(** Whitespace removed by [str.strip]: its ASCII members only; the others
    (such as U+00A0) are kept by [strip] below, which the properties apply
    to text without them. *)
Definition is_space (c : ascii) : bool :=
  let n := code c in
  ((9 <=? n) && (n <=? 13))%nat || (n =? 32)%nat || ((28 <=? n) && (n <=? 31))%nat.

Fixpoint lstrip (l : list ascii) : list ascii :=
  match l with
  | c :: r => if is_space c then lstrip r else l
  | [] => []
  end.

Definition strip (s : string) : string :=
  of_list (rev (lstrip (rev (lstrip (to_list s))))).

(** [s.split(sep)] for a one-character separator. *)
Fixpoint split_on (sep : ascii) (s : string) : list string :=
  match s with
  | EmptyString => [""]
  | String c r =>
      if Ascii.eqb c sep then "" :: split_on sep r
      else match split_on sep r with
           | x :: xs => String c x :: xs
           | [] => [schar c]
           end
  end.

Definition hexdig_lower (n : nat) : ascii :=
  if (n <? 10)%nat then ascii_of_nat (48 + n) else ascii_of_nat (87 + n).
Definition hexdig_upper (n : nat) : ascii :=
  if (n <? 10)%nat then ascii_of_nat (48 + n) else ascii_of_nat (55 + n).

(* ------------------------------------------------------------------ *)
(** ** Python values and exceptions *)

Inductive pyval : Type :=
| PNone
| PBool (b : bool)
| PInt (z : Z)
| PStr (s : string)
| PBytes (b : string)
| PList (l : list pyval)
| PDict (d : list (string * pyval))
| PDate (y m d : Z)
| PDateTime (y mo d h mi s : Z).

Inductive py_error : Type :=
| MissingParameter (name : string)   (** [TypeError("Missing parameter %s")] *)
| ExtraArguments (rest : pyval)      (** [TypeError("Extra arguments: %r")] *)
| TypeError (what : string)
| ValueError (what : string)
| KeyError (key : string)
| AttributeError (what : string)
| UnicodeError (what : string)
| OSError (path : string)
| SyntaxError (what : string)
| HTTPErr (code : Z) (body : string)
| APIErr (kind : string) (code : Z) (body : string).

Inductive res (A : Type) : Type :=
| Ok (a : A)
| Err (e : py_error).
Arguments Ok {A} a.
Arguments Err {A} e.

Definition bind {A B} (m : res A) (k : A -> res B) : res B :=
  match m with Ok a => k a | Err e => Err e end.

Notation "x <- m ;; k" := (bind m (fun x => k))
  (at level 61, m at next level, right associativity).

(** Python's [==] on the modelled values: [bool] is a subclass of [int]
    ([True == 1]); [str] and [bytes] never compare equal; dictionaries are
    equal when they have the same keys with equal values, in any order;
    a [date] never equals a [datetime]. *)
Definition as_num (v : pyval) : option Z :=
  match v with
  | PBool b => Some (if b then 1%Z else 0%Z)
  | PInt z => Some z
  | _ => None
  end.

Fixpoint dict_get {A} (d : list (string * A)) (k : string) : option A :=
  match d with
  | [] => None
  | (k', v) :: r => if String.eqb k k' then Some v else dict_get r k
  end.

Fixpoint py_eq (a b : pyval) {struct a} : bool :=
  match a, b with
  | PNone, PNone => true
  | PStr x, PStr y => String.eqb x y
  | PBytes x, PBytes y => String.eqb x y
  | PList xs, PList ys =>
      (fix go (xs ys : list pyval) : bool :=
         match xs, ys with
         | [], [] => true
         | x :: xs', y :: ys' => py_eq x y && go xs' ys'
         | _, _ => false
         end) xs ys
  | PDict dx, PDict dy =>
      (List.length dx =? List.length dy)%nat &&
      (fix go (dx : list (string * pyval)) : bool :=
         match dx with
         | [] => true
         | (k, v) :: r =>
             match dict_get dy k with
             | Some w => py_eq v w && go r
             | None => false
             end
         end) dx
  | PDate y m d, PDate y' m' d' => (y =? y')%Z && (m =? m')%Z && (d =? d')%Z
  | PDateTime y mo d h mi s, PDateTime y' mo' d' h' mi' s' =>
      (y =? y')%Z && (mo =? mo')%Z && (d =? d')%Z &&
      (h =? h')%Z && (mi =? mi')%Z && (s =? s')%Z
  | _, _ =>
      match as_num a, as_num b with
      | Some x, Some y => (x =? y)%Z
      | _, _ => false
      end
  end.

(** Python truthiness. *)
Definition truthy (v : pyval) : bool :=
  match v with
  | PNone => false
  | PBool b => b
  | PInt z => negb (z =? 0)%Z
  | PStr s | PBytes s => negb (String.eqb s "")
  | PList l => negb (List.length l =? 0)%nat
  | PDict d => negb (List.length d =? 0)%nat
  | PDate _ _ _ | PDateTime _ _ _ _ _ _ => true
  end.

(** [repr] of [str] and [bytes] (ASCII escapes; bytes of non-ASCII text are
    kept in a [str] and written [\xNN] in [bytes]; Python's [repr] of a
    [str] also escapes the non-printable characters outside ASCII, such as
    U+00A0, which are kept here). *)
Definition escape_byte (isbytes : bool) (q : ascii) (c : ascii) : string :=
  let n := code c in
  if Ascii.eqb c "\"%char then "\\"
  else if Ascii.eqb c q then String "\"%char (schar q)
  else if (n =? 10)%nat then "\n"
  else if (n =? 13)%nat then "\r"
  else if (n =? 9)%nat then "\t"
  else if (n <? 32)%nat || (n =? 127)%nat || (isbytes && (128 <=? n)%nat) then
    String "\"%char (String "x"%char
      (String (hexdig_lower (n / 16)) (schar (hexdig_lower (n mod 16)))))
  else schar c.

Definition dquote : ascii := ascii_of_nat 34.

Definition has_char (c : ascii) (s : string) : bool :=
  existsb (Ascii.eqb c) (to_list s).

Definition quote_repr (isbytes : bool) (s : string) : string :=
  let q := if has_char "'"%char s && negb (has_char dquote s)
           then dquote else "'"%char in
  schar q ++ String.concat "" (map (escape_byte isbytes q) (to_list s)) ++ schar q.

Definition str_repr (s : string) : string := quote_repr false s.
Definition bytes_repr (s : string) : string := "b" ++ quote_repr true s.

Definition date_iso (y m d : Z) : string :=
  pad 4 y ++ "-" ++ pad 2 m ++ "-" ++ pad 2 d.
Definition time_iso (h mi s : Z) : string :=
  pad 2 h ++ ":" ++ pad 2 mi ++ ":" ++ pad 2 s.

Fixpoint py_repr (v : pyval) : string :=
  match v with
  | PNone => "None"
  | PBool true => "True"
  | PBool false => "False"
  | PInt z => z_str z
  | PStr s => str_repr s
  | PBytes b => bytes_repr b
  | PList l => "[" ++ join ", " (map py_repr l) ++ "]"
  | PDict d =>
      "{" ++ join ", " (map (fun kv => str_repr (fst kv) ++ ": " ++ py_repr (snd kv)) d)
      ++ "}"
  | PDate y m d =>
      "datetime.date(" ++ join ", " (map z_str [y; m; d]) ++ ")"
  | PDateTime y mo d h mi s =>
      "datetime.datetime(" ++
      join ", " (map z_str ([y; mo; d; h; mi] ++ (if (s =? 0)%Z then [] else [s]))) ++ ")"
  end.

(** Python's [str(value)]. *)
Definition py_str (v : pyval) : string :=
  match v with
  | PStr s => s
  | PDate y m d => date_iso y m d
  | PDateTime y mo d h mi s => date_iso y mo d ++ " " ++ time_iso h mi s
  | _ => py_repr v
  end.

(** [value.strftime("%Y-%m-%dT%H:%M:%SZ")]. *)
Definition strftime_iso (v : pyval) : option string :=
  match v with
  | PDate y m d => Some (date_iso y m d ++ "T" ++ time_iso 0 0 0 ++ "Z")
  | PDateTime y mo d h mi s => Some (date_iso y mo d ++ "T" ++ time_iso h mi s ++ "Z")
  | _ => None
  end.

(** Strict UTF-8 well-formedness, as [bytes.decode("utf-8")] checks it. *)
Definition in_range (lo hi : nat) (c : ascii) : bool := (lo <=? code c)%nat && (code c <=? hi)%nat.
Definition cont (c : ascii) : bool := in_range 128 191 c.

Fixpoint utf8_valid (l : list ascii) : bool :=
  match l with
  | [] => true
  | c :: r =>
      if in_range 0 127 c then utf8_valid r
      else if in_range 194 223 c then
        match r with c1 :: r1 => cont c1 && utf8_valid r1 | _ => false end
      else if in_range 224 239 c then
        match r with
        | c1 :: c2 :: r2 =>
            (if (code c =? 224)%nat then in_range 160 191 c1
             else if (code c =? 237)%nat then in_range 128 159 c1
             else cont c1) && cont c2 && utf8_valid r2
        | _ => false
        end
      else if in_range 240 244 c then
        match r with
        | c1 :: c2 :: c3 :: r3 =>
            (if (code c =? 240)%nat then in_range 144 191 c1
             else if (code c =? 244)%nat then in_range 128 143 c1
             else cont c1) && cont c2 && cont c3 && utf8_valid r3
        | _ => false
        end
      else false
  end.

(** [base64.b64encode], on 24-bit groups computed in [N]. *)
Definition b64_char (n : N) : ascii :=
  if (n <? 26)%N then ascii_of_N (65 + n)
  else if (n <? 52)%N then ascii_of_N (71 + n)
  else if (n <? 62)%N then ascii_of_N (n - 4)
  else if (n =? 62)%N then "+"%char else "/"%char.

Definition b64_group (x : N) : list ascii :=
  [b64_char (x / 262144)%N; b64_char (x / 4096 mod 64)%N;
   b64_char (x / 64 mod 64)%N; b64_char (x mod 64)%N].

Fixpoint b64 (l : list ascii) : list ascii :=
  match l with
  | a :: b :: c :: r =>
      b64_group (N_of_ascii a * 65536 + N_of_ascii b * 256 + N_of_ascii c)%N ++ b64 r
  | [a; b] =>
      firstn 3 (b64_group (N_of_ascii a * 65536 + N_of_ascii b * 256)%N) ++ ["="%char]
  | [a] =>
      firstn 2 (b64_group (N_of_ascii a * 65536)%N) ++ ["="%char; "="%char]
  | [] => []
  end.

Definition b64encode (s : string) : string := of_list (b64 (to_list s)).

(** [os.path.basename]: the text after the last ['/']. *)
Definition basename (p : string) : string :=
  last (split_on "/"%char p) "".

(** A byte that continues a UTF-8 sequence ([10xxxxxx]); every other byte
    starts a character. *)
Definition is_utf8_cont (c : ascii) : bool := (128 <=? code c)%nat && (code c <? 192)%nat.

(** [_parse_csv_list_safely], over the UTF-8 bytes of the text: [item] is
    the text collected so far, [escaped] the flag the loop keeps.  As in the
    source, the flag is cleared only by a comma; while it is set, a
    backslash goes before each character, that is before the first byte of
    each character. *)
Fixpoint csv_go (l : list ascii) (item : string) (escaped : bool) : list string :=
  match l with
  | [] =>
      let item := if escaped then item ++ "\" else item in
      if String.eqb item "" then [] else [item]
  | c :: r =>
      if Ascii.eqb c ","%char then
        if escaped then csv_go r (item ++ ",") false
        else item :: csv_go r "" false
      else if Ascii.eqb c "\"%char then csv_go r item true
      else csv_go r ((if escaped && negb (is_utf8_cont c) then item ++ "\" else item) ++ schar c)
             escaped
  end.

Definition parse_csv_list_safely (s : string) : list string := csv_go (to_list s) "" false.

(** [str.partition("=")]. *)
Fixpoint partition_eq (l : list ascii) : option (string * string) :=
  match l with
  | [] => None
  | c :: r =>
      if Ascii.eqb c "="%char then Some ("", of_list r)
      else match partition_eq r with
           | Some (k, v) => Some (String c k, v)
           | None => None
           end
  end.

Fixpoint parse_csv_mapping_go (items : list string) : res (list (string * string)) :=
  match items with
  | [] => Ok []
  | it :: r =>
      match partition_eq (to_list it) with
      | None => Err (ValueError ("invalid key/value pair " ++ it))
      | Some kv => rest <- parse_csv_mapping_go r ;; Ok (kv :: rest)
      end
  end.

Definition parse_csv_mapping_safely (s : string) : res (list (string * string)) :=
  parse_csv_mapping_go (parse_csv_list_safely s).

(* ------------------------------------------------------------------ *)
(** ** Dictionaries (insertion-ordered association lists) *)

Fixpoint dict_set {A} (d : list (string * A)) (k : string) (v : A) : list (string * A) :=
  match d with
  | [] => [(k, v)]
  | (k', v') :: r => if String.eqb k k' then (k', v) :: r else (k', v') :: dict_set r k v
  end.

(** [d.update(e)]. *)
Definition dict_update {A} (d e : list (string * A)) : list (string * A) :=
  fold_left (fun acc kv => dict_set acc (fst kv) (snd kv)) e d.

(** [d.pop(k)] once [k in d] is known: the entry is removed. *)
Fixpoint dict_pop {A} (d : list (string * A)) (k : string) : list (string * A) :=
  match d with
  | [] => []
  | (k', v) :: r => if String.eqb k k' then r else (k', v) :: dict_pop r k
  end.

(* ------------------------------------------------------------------ *)
(** ** Parameter descriptors and the parameter encoder ([_API._encode_*]) *)

(** A schema parameter descriptor.  [p_optional] is the truth of
    [parameter.get("optional")], [p_default] is [parameter.get("default")]
    ([PNone] when absent); the sub-descriptors are [None] when the key is
    absent from the descriptor. *)
Inductive param : Type := mkParam {
  p_type : string;
  p_optional : bool;
  p_default : pyval;
  p_item : option param;
  p_key : option param;
  p_value : option param;
  p_fields : option (list (string * param))
}.

(** A wire value: a [str] or, for [file] parameters, [bytes]. *)
Inductive wval : Type :=
| WStr (s : string)
| WBytes (b : string).

Definition wval_str (w : wval) : string :=
  match w with WStr s => s | WBytes b => bytes_repr b end.

Definition wire := list (string * wval).

(** [parameter["type"].replace(" ", "_")]. *)
Fixpoint underscores (s : string) : string :=
  match s with
  | EmptyString => EmptyString
  | String c r => String (if Ascii.eqb c " "%char then "_"%char else c) (underscores r)
  end.

Section Encoder.

(** The file system as [open(path, "rb").read()] sees it: [None] when the
    file cannot be opened.  An [int] value, which [open] takes as a file
    descriptor, is not modelled: [open_read] refuses it. *)
Variable read_file : string -> option string.

Definition open_read (v : pyval) : res string :=
  match v with
  | PStr p | PBytes p =>
      match read_file p with Some c => Ok c | None => Err (OSError p) end
  | _ => Err (TypeError "expected str, bytes or os.PathLike object")
  end.

Definition encode_date (name : string) (v : pyval) : res wire :=
  match v with
  | PStr s => Ok [(name, WStr s)]
  | _ => match strftime_iso v with
         | Some s => Ok [(name, WStr s)]
         | None => Err (AttributeError "strftime")
         end
  end.

(** [_encode_unicode]: dates are redirected to [_encode_date]; any other
    value goes through [str(value, "utf-8")], which decodes a bytes-like
    object and raises [TypeError] on everything else. *)
Definition encode_unicode (name : string) (v : pyval) : res wire :=
  match v with
  | PDate _ _ _ | PDateTime _ _ _ _ _ _ => encode_date name v
  | PBytes b =>
      if utf8_valid (to_list b) then Ok [(name, WStr b)]
      else Err (UnicodeError "utf-8")
  | PStr _ => Err (TypeError "decoding str is not supported")
  | _ => Err (TypeError "decoding to str: need a bytes-like object")
  end.

Definition encode_file (name : string) (v : pyval) : res wire :=
  contents <- open_read v ;;
  match v with
  | PStr p => Ok [(name, WBytes (basename p ++ "$$" ++ b64encode contents))]
  | _ => Err (TypeError "can't concat str to bytes")
  end.

(** [_encode_data]: [b64encode(contents)] is [bytes], which has no
    [.encode]. *)
Definition encode_data (name : string) (v : pyval) : res wire :=
  _ <- open_read v ;; Err (AttributeError "'bytes' object has no attribute 'encode'").

(** The items [_encode_list] iterates over. *)
Definition list_items (v : pyval) : res (list pyval) :=
  match v with
  | PStr s => Ok (map (fun it => PStr (strip it)) (split_on ","%char s))
  | PList l => Ok l
  | PDict d => Ok (map (fun kv => PStr (fst kv)) d)
  | PBytes b => Ok (map (fun c => PInt (Z.of_nat (code c))) (to_list b))
  | _ => Err (TypeError "object is not iterable")
  end.

(** The characters of a UTF-8 text, each as the list of its bytes: [cur]
    holds the bytes of the character being read. *)
Fixpoint utf8_chars_go (l : list ascii) (cur : list ascii) : list (list ascii) :=
  match l with
  | [] => match cur with [] => [] | _ => [cur] end
  | c :: r =>
      if is_utf8_cont c then utf8_chars_go r (cur ++ [c])
      else match cur with [] => utf8_chars_go r [c] | _ => cur :: utf8_chars_go r [c] end
  end.

(** Iterating over a [str]: its characters, each a one-character [str]. *)
Definition utf8_chars (s : string) : list string := map of_list (utf8_chars_go (to_list s) []).

(** Unpacking one iterated item into [key, value]. *)
Definition unpack2 (v : pyval) : res (pyval * pyval) :=
  match v with
  | PList [a; b] => Ok (a, b)
  | PStr s =>
      match utf8_chars s with
      | [a; b] => Ok (PStr a, PStr b)
      | _ => Err (ValueError "wrong number of values to unpack")
      end
  | PBytes s =>
      match to_list s with
      | [a; b] => Ok (PInt (Z.of_nat (code a)), PInt (Z.of_nat (code b)))
      | _ => Err (ValueError "wrong number of values to unpack")
      end
  | PDict [(a, _); (b, _)] => Ok (PStr a, PStr b)
  | PList _ | PDict _ => Err (ValueError "wrong number of values to unpack")
  | _ => Err (TypeError "cannot unpack non-iterable object")
  end.

Fixpoint mapM {A B} (f : A -> res B) (l : list A) : res (list B) :=
  match l with
  | [] => Ok []
  | x :: r => y <- f x ;; ys <- mapM f r ;; Ok (y :: ys)
  end.

(** The pairs [_encode_mapping] iterates over.  A string is first turned
    into a dictionary by the comprehension; iterating that dictionary yields
    its keys, each of which is then unpacked. *)
Definition mapping_items (v : pyval) : res (list (pyval * pyval)) :=
  match v with
  | PStr s =>
      pairs <- parse_csv_mapping_safely s ;;
      let d := fold_left (fun acc kv => dict_set acc (strip (fst kv)) (strip (snd kv)))
                         pairs [] in
      mapM (fun kv => unpack2 (PStr (fst kv))) d
  | PDict d => Ok (map (fun kv => (PStr (fst kv), snd kv)) d)
  | PList l => mapM unpack2 l
  | PBytes _ => Err (TypeError "cannot unpack non-iterable int object")
  | _ => Err (TypeError "object is not iterable")
  end.

Section Loops.

Variable enc : param -> string -> pyval -> res wire.

(** The loop of [_encode_struct_fields] over a dictionary of arguments. *)
Fixpoint struct_loop (fields : list (string * param)) (args : list (string * pyval))
    (prefix : string) (acc : wire) : res wire :=
  match fields with
  | [] =>
      match args with
      | [] => Ok acc
      | _ => Err (ExtraArguments (PDict args))
      end
  | (n, p) :: fs =>
      match dict_get args n with
      | None =>
          if p_optional p then struct_loop fs args prefix acc
          else Err (MissingParameter n)
      | Some v =>
          r <- enc p (prefix ++ n) v ;;
          struct_loop fs (dict_pop args n) prefix (dict_update acc r)
      end
  end.

(** The loop of [_encode_list]. *)
Fixpoint list_loop (it : param) (name : string) (i : nat) (items : list pyval)
    (acc : wire) : res wire :=
  match items with
  | [] => Ok acc
  | x :: r =>
      e <- enc it (name ++ "." ++ nat_str (i + 1)) x ;;
      list_loop it name (S i) r (dict_update acc e)
  end.

(** The loop of [_encode_mapping]. *)
Fixpoint map_loop (kp vp : param) (name : string) (items : list (pyval * pyval))
    (acc : wire) : res wire :=
  match items with
  | [] => Ok acc
  | (k, v) :: r =>
      ke <- enc kp "<key>" k ;;
      match dict_get ke "<key>" with
      | None => Err (KeyError "<key>")
      | Some kw =>
          e <- enc vp (name ++ "." ++ wval_str kw) v ;;
          map_loop kp vp name r (dict_update acc e)
      end
  end.

End Loops.

(** [_encode_struct_fields] when [arguments] is a list (a list has [.copy]):
    membership is tested with [==], [list.pop(name)] raises [TypeError]. *)
Fixpoint struct_loop_list (fields : list (string * param)) (l : list pyval) : res wire :=
  match fields with
  | [] => match l with [] => Ok [] | _ => Err (ExtraArguments (PList l)) end
  | (n, p) :: fs =>
      if existsb (py_eq (PStr n)) l then Err (TypeError "list indices must be integers")
      else if p_optional p then struct_loop_list fs l
      else Err (MissingParameter n)
  end.

(** [_encode_argument] with the dispatch on the parameter type.  A type
    outside the schema's closed set of types has no [_encode_] handler and
    raises [AttributeError]. *)
Fixpoint encode_argument (p : param) (name : string) (v : pyval) {struct p} : res wire :=
  if p_optional p && py_eq v (p_default p) then Ok [] else
  match p with
  | mkParam ty _ _ item key value fields =>
      let kind := underscores ty in
      if existsb (String.eqb kind) ["integer"; "float"; "raw_string"; "enum"] then
        Ok [(name, WStr (py_str v))]
      else if existsb (String.eqb kind) ["unicode"; "unicode_line"; "unicode_title"] then
        encode_unicode name v
      else if String.eqb kind "boolean" then
        Ok [(name, WStr (if truthy v then "true" else "false"))]
      else if String.eqb kind "date" then encode_date name v
      else if String.eqb kind "file" then encode_file name v
      else if String.eqb kind "data" then encode_data name v
      else if String.eqb kind "list" then
        items <- list_items v ;;
        match items, item with
        | [], _ => Ok []
        | _, None => Err (KeyError "item")
        | _, Some it => list_loop encode_argument it name 0 items []
        end
      else if String.eqb kind "mapping" then
        items <- mapping_items v ;;
        match key, value with
        | Some kp, Some vp => map_loop encode_argument kp vp name items []
        | None, _ => Err (KeyError "key")
        | _, None => Err (KeyError "value")
        end
      else if String.eqb kind "structure" then
        match fields with
        | None => Err (KeyError "fields")
        | Some fl =>
            match v with
            | PDict d => struct_loop encode_argument fl d (name ++ ".") []
            | PList l => struct_loop_list fl l
            | _ => Err (AttributeError "copy")
            end
        end
      else Err (AttributeError ("_encode_" ++ kind))
  end.

(** [_encode_struct_fields(fields, arguments, prefix)]. *)
Definition encode_struct_fields (fields : list (string * param))
    (arguments : list (string * pyval)) (prefix : string) : res wire :=
  struct_loop encode_argument fields arguments prefix [].

End Encoder.

(** The loop of [_encode_struct_fields] run over some of the declared
    fields, without the final check for leftover arguments: the arguments
    not yet consumed and the result so far. *)
Fixpoint struct_prefix (enc : param -> string -> pyval -> res wire)
    (fields : list (string * param)) (args : list (string * pyval))
    (prefix : string) (acc : wire) : res (list (string * pyval) * wire) :=
  match fields with
  | [] => Ok (args, acc)
  | (n, p) :: fs =>
      match dict_get args n with
      | None =>
          if p_optional p then struct_prefix enc fs args prefix acc
          else Err (MissingParameter n)
      | Some v =>
          r <- enc p (prefix ++ n) v ;;
          struct_prefix enc fs (dict_pop args n) prefix (dict_update acc r)
      end
  end.

Definition declared (fields : list (string * param)) (n : string) : bool :=
  existsb (String.eqb n) (map fst fields).

(** Descriptors used in the examples. *)
Definition scalar (ty : string) : param := mkParam ty false PNone None None None None.
Definition opt_scalar (ty : string) (d : pyval) : param := mkParam ty true d None None None None.
Definition list_of (it : param) : param := mkParam "list" false PNone (Some it) None None None.
Definition mapping_of (k v : param) : param := mkParam "mapping" false PNone None (Some k) (Some v) None.
Definition no_files : string -> option string := fun _ => None.

(* ------------------------------------------------------------------ *)
(** ** URL parsing ([parse], over [urllib.parse] of Python 3.8) *)

Fixpoint find_char (c : ascii) (l : list ascii) : option nat :=
  match l with
  | [] => None
  | x :: r => if Ascii.eqb x c then Some 0 else option_map S (find_char c r)
  end.

Definition mem (c : ascii) (l : list ascii) : bool := existsb (Ascii.eqb c) l.

(** [url.find(c, start)]. *)
Definition find_from (c : ascii) (start : nat) (l : list ascii) : option nat :=
  option_map (fun i => start + i) (find_char c (skipn start l)).

(** [url.rfind(c)]. *)
Definition rfind (c : ascii) (l : list ascii) : option nat :=
  option_map (fun i => List.length l - 1 - i) (find_char c (rev l)).

(** [s.split(c, 1)] when [c in s]. *)
Definition split1 (c : ascii) (l : list ascii) : list ascii * list ascii :=
  match find_char c l with
  | Some i => (firstn i l, skipn (S i) l)
  | None => (l, [])
  end.

Definition scheme_chars : list ascii :=
  to_list "abcdefghijklmnopqrstuvwxyzABCDEFGHIJKLMNOPQRSTUVWXYZ0123456789+-.".

Definition uses_params : list string :=
  [""; "ftp"; "hdl"; "prospero"; "http"; "imap"; "https"; "shttp"; "rtsp"; "rtspu";
   "sip"; "sips"; "mms"; "sftp"; "tel"].

Definition is_ascii_str (l : list ascii) : bool := forallb (fun c => (code c <? 128)%nat) l.

(** [_splitnetloc(url, 2)]. *)
Definition splitnetloc (l : list ascii) : list ascii * list ascii :=
  let r := skipn 2 l in
  let delim := fold_left (fun d c => match find_char c r with
                                      | Some i => Nat.min d i
                                      | None => d end)
                         (to_list "/?#") (List.length r) in
  (firstn delim r, skipn delim r).

Section Urls.

(** [_checknetloc] on a netloc with non-ASCII text: its NFKC normalisation
    must not introduce one of [/?#@:].  An ASCII netloc always passes. *)
Variable nfkc_netloc_ok : list ascii -> bool.

Definition split_rest (l : list ascii) : res (list ascii * list ascii * list ascii * list ascii) :=
  let '(netloc, rest) :=
    if String.prefix "//" (of_list l) then splitnetloc l else ([], l) in
  if (mem "["%char netloc && negb (mem "]"%char netloc)) ||
     (mem "]"%char netloc && negb (mem "["%char netloc))
  then Err (ValueError "Invalid IPv6 URL")
  else
    let '(rest, fragment) := if mem "#"%char rest then split1 "#"%char rest else (rest, []) in
    let '(rest, query) := if mem "?"%char rest then split1 "?"%char rest else (rest, []) in
    if is_ascii_str netloc || nfkc_netloc_ok netloc
    then Ok (netloc, rest, query, fragment)
    else Err (ValueError "netloc contains invalid characters under NFKC normalization").

(** [urlsplit(url)]: scheme, netloc, path, query, fragment. *)
Definition urlsplit (url : string) : res (string * string * string * string * string) :=
  let l := to_list url in
  let '(scheme, l) :=
    match find_char ":"%char l with
    | Some (S _ as i) =>
        let pre := firstn i l in
        let rest := skipn (S i) l in
        if String.eqb (of_list pre) "http" then ("http", rest)
        else if forallb (fun c => mem c scheme_chars) pre &&
                (match rest with [] => true | _ => negb (forallb is_digit rest) end)
        then (lower (of_list pre), rest)
        else ("", l)
    | _ => ("", l)
    end in
  r <- split_rest l ;;
  let '(netloc, path, query, fragment) := r in
  Ok (scheme, of_list netloc, of_list path, of_list query, of_list fragment).

(** [_splitparams(url)], called when [';' in url]. *)
Definition splitparams (l : list ascii) : list ascii * list ascii :=
  let i := if mem "/"%char l then
             match rfind "/"%char l with
             | Some j => find_from ";"%char j l
             | None => None
             end
           else find_char ";"%char l in
  match i with
  | Some i => (firstn i l, skipn (S i) l)
  | None => (l, [])
  end.

(** [urlunparse(("", "") + urlparse(url)[2:])]: path, params, query and
    fragment put back together; empty parts lose their separator. *)
Definition url_path (url : string) : res (string * string) :=
  sp <- urlsplit url ;;
  let '(scheme, netloc, path, query, fragment) := sp in
  let '(path, params) :=
    if existsb (String.eqb scheme) uses_params && mem ";"%char (to_list path)
    then let '(a, b) := splitparams (to_list path) in (of_list a, of_list b)
    else (path, "") in
  let path := if String.eqb params "" then path else path ++ ";" ++ params in
  let path := if String.eqb query "" then path else path ++ "?" ++ query in
  let path := if String.eqb fragment "" then path else path ++ "#" ++ fragment in
  Ok (netloc, path).

End Urls.

(** Python's [int(text)] on ASCII text: surrounding whitespace, an optional
    sign, decimal digits with single underscores between digits. *)
Fixpoint digits_value (l : list ascii) (acc : Z) : option Z :=
  match l with
  | [] => Some acc
  | c :: r =>
      if is_digit c then digits_value r (acc * 10 + Z.of_nat (code c - 48))%Z
      else if Ascii.eqb c "_"%char then
        match r with
        | d :: _ => if is_digit d then digits_value r acc else None
        | [] => None
        end
      else None
  end.

Definition py_int (s : string) : option Z :=
  let l := to_list (strip s) in
  let '(neg, l) := match l with
                   | c :: r => if Ascii.eqb c "-"%char then (true, r)
                               else if Ascii.eqb c "+"%char then (false, r)
                               else (false, l)
                   | [] => (false, l)
                   end in
  match l with
  | d :: _ => if is_digit d then option_map (fun z => if neg then Z.opp z else z)
                                            (digits_value l 0)
              else None
  | [] => None
  end.

Section Parse.

Variable nfkc_netloc_ok : list ascii -> bool.

(** [parse(url)]: host, port and path. *)
Definition parse (url : string) : res (string * option Z * string) :=
  let lowurl := lower url in
  if negb (String.prefix "http://" lowurl || String.prefix "https://" lowurl) then
    Err (SyntaxError ("URL must start with 'http://' or 'https://': " ++ url))
  else
    let url := strip url in
    np <- url_path nfkc_netloc_ok url ;;
    let '(host, path) := np in
    if mem ":"%char (to_list host) then
      match split_on ":"%char host with
      | [h; port] => Ok (h, py_int port, path)
      | _ => Err (ValueError "too many values to unpack")
      end
    else Ok (host, None, path).

End Parse.

Definition signed_host (host : string) (port : option Z) : string :=
  match port with Some p => host ++ ":" ++ z_str p | None => host end.

(* ------------------------------------------------------------------ *)
(** ** Request signing ([run_query]) *)

(** [urllib.parse.quote(s, safe)] on the UTF-8 bytes of [s]. *)
Definition always_safe (c : ascii) : bool :=
  is_upper c || is_lower c || is_digit c || mem c (to_list "_.-~").

Definition quote_byte (safe : string) (c : ascii) : string :=
  if always_safe c || mem c (to_list safe) then schar c
  else String "%"%char (String (hexdig_upper (code c / 16))
                          (schar (hexdig_upper (code c mod 16)))).

Definition quote (safe : string) (s : string) : string :=
  String.concat "" (map (quote_byte safe) (to_list s)).

Definition wval_bytes (w : wval) : string := match w with WStr s | WBytes s => s end.

(** Python's [<] on [str] (code points) is the byte order of the UTF-8
    encodings; on pairs it is lexicographic. *)
Definition str_ltb (a b : string) : bool :=
  match String.compare a b with Lt => true | _ => false end.

Definition pair_ltb (x y : string * string) : bool :=
  str_ltb (fst x) (fst y) || (String.eqb (fst x) (fst y) && str_ltb (snd x) (snd y)).

Section Sort.
Context {A : Type} (key : A -> string * string).

Fixpoint insert_sorted (x : A) (l : list A) : list A :=
  match l with
  | [] => [x]
  | y :: r => if pair_ltb (key y) (key x) then y :: insert_sorted x r else x :: l
  end.

(** [sorted(...)]: the result of any correct sort, the keys being distinct. *)
Fixpoint sort (l : list A) : list A :=
  match l with [] => [] | x :: r => insert_sorted x (sort r) end.
End Sort.

Definition raw_pair (kv : string * wval) : string * string := (fst kv, wval_bytes (snd kv)).

Definition encode_pair (kv : string * wval) : string :=
  quote "~" (fst kv) ++ "=" ++ quote "~" (wval_bytes (snd kv)).

(** [signed_params] as [run_query] builds it: the pairs sorted as they are,
    then each key and value quoted. *)
Definition signed_params (params : list (string * wval)) : string :=
  join "&" (map encode_pair (sort raw_pair params)).

(** The coercion loop at the start of [run_query]: each [str] key is popped
    and the entry put back at the end of the dictionary. *)
Definition coerce_params (params : list (string * wval)) : list (string * wval) :=
  fold_left (fun d kv => dict_set (dict_pop d (fst kv)) (fst kv) (snd kv)) params params.

Definition fixed_fields (access_key action timestamp version : string) : list (string * wval) :=
  [("access_key_id", WStr access_key); ("action", WStr action);
   ("signature_version", WStr "2"); ("signature_method", WStr "HmacSHA256");
   ("timestamp", WStr timestamp); ("version", WStr version)].

Definition nl : string := schar (ascii_of_nat 10).

Definition string_to_sign (host path params : string) : string :=
  "POST" ++ nl ++ host ++ nl ++ path ++ nl ++ params.

(** [s.encode("ascii")]. *)
Definition encode_ascii (s : string) : res string :=
  if is_ascii_str (to_list s) then Ok s else Err (UnicodeError "ascii").

(** What an HTTP POST gives back: the body, or an [HTTPError] with its
    status, its body and the [error] code of its JSON body, if any. *)
Inductive fetch_outcome : Type :=
| Fetched (body : string)
| HTTPFail (status : Z) (message : string) (error_code : option string).

(** [s.endswith(suf)]. *)
Definition ends_with (suf s : string) : bool :=
  String.prefix (of_list (rev (to_list suf))) (of_list (rev (to_list s))).

(** [_get_error_code_name]. *)
Definition get_error_code_name (code : string) : string :=
  if ends_with "Error" code then code else code ++ "Error".

(** An exception class made by [_build_exception]: its name, and the
    number of classes made before it (two classes are never the same). *)
Record kind : Type := mkKind { kind_name : string; kind_id : nat }.

(** The [_ErrorsContainer]: its instance [__dict__], attribute name to
    exception class. *)
Definition registry := list (string * kind).

(** What [getattr(errors, name, None)] finds: a class stored by [add_error]
    in the instance's [__dict__], or one of the container's own attributes
    (a method or another object, all of them true). *)
Inductive attr : Type :=
| Registered (k : kind)
| OwnAttr (name : string).

(** The data descriptors of an [_ErrorsContainer] instance (Python 3.8):
    they take precedence over the instance's [__dict__]. *)
Definition container_data_attrs : list string := ["__class__"; "__dict__"; "__weakref__"].

(** The other attributes of the class and of [object] (Python 3.8): they are
    found when the instance's [__dict__] does not hold the name. *)
Definition container_class_attrs : list string :=
  ["add_error"; "lookup_error"; "__module__"; "__doc__";
   "__delattr__"; "__dir__"; "__eq__"; "__format__"; "__ge__"; "__getattribute__";
   "__gt__"; "__hash__"; "__init__"; "__init_subclass__"; "__le__"; "__lt__"; "__ne__";
   "__new__"; "__reduce__"; "__reduce_ex__"; "__repr__"; "__setattr__"; "__sizeof__";
   "__str__"; "__subclasshook__"].

(** [errors.lookup_error(name)], that is [getattr(self, name, None)]. *)
Definition lookup_error (reg : registry) (name : string) : option attr :=
  if existsb (String.eqb name) container_data_attrs then Some (OwnAttr name)
  else match dict_get reg name with
       | Some k => Some (Registered k)
       | None =>
           if existsb (String.eqb name) container_class_attrs then Some (OwnAttr name)
           else None
       end.

(** [errors.add_error(name, error)] is a [setattr] into the instance's
    [__dict__]: it replaces.  (Every name the module passes ends with [Error]
    or is [Unauthorised], none of them a data descriptor.) *)
Definition add_error (reg : registry) (name : string) (k : kind) : registry := dict_set reg name k.

Section RunQuery.

Variable nfkc_netloc_ok : list ascii -> bool.
(** [hmac.new(key, msg, sha256).digest()]. *)
Variable hmac_sha256 : string -> string -> string.
(** [fetch(url, post_body, {"Host": host}, cainfo=...)]. *)
Variable fetch : string -> string -> string -> fetch_outcome.
(** The module-level [errors] container. *)
Variable errors : registry.

(** The signing part of [run_query], from the coercion loop up to the call
    of [fetch]: the dictionary [params] as mutated, and the URI, the POST
    body and the signed host handed to [fetch]. *)
Definition sign_request (access_key secret_key action : string)
    (params : list (string * wval)) (uri version timestamp : string)
    : res (string * string * string) * list (string * wval) :=
  let params := coerce_params params in
  let params := dict_update params (fixed_fields access_key action timestamp version) in
  (hpp <- parse nfkc_netloc_ok uri ;;
   let '(host, port, path) := hpp in
   let shost := signed_host host port in
   let '(path, uri) := if String.eqb path "" then ("/", uri ++ "/") else (path, uri) in
   let sp := signed_params params in
   let to_sign := string_to_sign shost path sp in
   key <- encode_ascii secret_key ;;
   msg <- encode_ascii to_sign ;;
   let signature := b64encode (hmac_sha256 key msg) in
   Ok (uri, sp ++ "&signature=" ++ quote "/" signature, shost), params).

(** [run_query]: its result, and the caller's [params] dictionary as it is
    after the call.  [timestamp] is the value [time.strftime] gives once at
    the start of the call. *)
Definition run_query (access_key secret_key action : string)
    (params : list (string * wval)) (uri version timestamp : string)
    : res string * list (string * wval) :=
  let '(signed, params') :=
    sign_request access_key secret_key action params uri version timestamp in
  (req <- signed ;;
   let '(uri, body, shost) := req in
   match fetch uri body shost with
   | Fetched text => Ok text
   | HTTPFail status message (Some code) =>
       match lookup_error errors (get_error_code_name code) with
       | Some (Registered k) => Err (APIErr (kind_name k) status message)
       (* calling one of the container's own attributes with the status and
          the body; never reached, as no such name ends with [Error] *)
       | Some (OwnAttr a) => Err (TypeError a)
       | None => Err (HTTPErr status message)
       end
   | HTTPFail status message None => Err (HTTPErr status message)
   end, params').

End RunQuery.

(** The canonical parameter string as the specification words it: each key
    and value percent-encoded first, the encoded pairs then sorted. *)
Definition canonical_params_spec (params : list (string * wval)) : string :=
  join "&" (map (fun kv => fst kv ++ "=" ++ snd kv)
              (sort (fun kv => kv)
                 (map (fun kv => (quote "~" (fst kv), quote "~" (wval_bytes (snd kv)))) params))).

(* ------------------------------------------------------------------ *)
(** ** The error taxonomy ([_build_exceptions]) *)

(** The schema as [_build_exceptions] reads it: action name to version to
    handler, where a handler's [errors] is [None] when the key is absent;
    only the [code] of each error matters here. *)
Definition schema := list (string * list (string * option (list string))).

Definition register (st : registry * nat) (code : string) : registry * nat :=
  let '(reg, n) := st in
  let name := get_error_code_name code in
  let ty := mkKind name n in
  match lookup_error reg name with
  | Some _ => (reg, S n)
  | None => (add_error reg name ty, S n)
  end.

(** [_build_exceptions(schema)]; [n] counts the classes made so far. *)
Definition build_exceptions_from (s : schema) (n : nat) : res (registry * nat) :=
  fold_left (fun acc action =>
    fold_left (fun acc vh =>
      st <- acc ;;
      match snd vh with
      | None => Err (KeyError "errors")
      | Some errs => Ok (fold_left register errs st)
      end) (snd action) acc) s (Ok ([], n)).

Definition build_exceptions (s : schema) : res registry :=
  r <- build_exceptions_from s 0 ;; Ok (fst r).

(** The classes [base.py] defines after building the taxonomy, with the names
    [errors.add_error] registers them under; [n] is the number of classes
    made before them. *)
Definition builtin_errors (n : nat) : list (string * kind) :=
  [("MultiError", mkKind "MultiError" n);
   ("Unauthorised", mkKind "UnauthorisedError" (S n));
   ("SignatureDoesNotMatchError", mkKind "SignatureDoesNotMatchError" (S (S n)));
   ("AuthFailureError", mkKind "AuthFailureError" (S (S (S n))));
   ("InvalidCredentialsError", mkKind "InvalidCredentialsError" (S (S (S (S n)))))].

(** The module-level [errors]: [_build_exceptions(_schema)], then the five
    calls of [errors.add_error]. *)
Definition module_errors (s : schema) : res registry :=
  r <- build_exceptions_from s 0 ;;
  Ok (fold_left (fun reg kv => add_error reg (fst kv) (snd kv)) (builtin_errors (snd r)) (fst r)).

(** Every error code the schema declares, in the order they are visited. *)
Definition declared_codes (s : schema) : list string :=
  concat (map (fun action =>
    concat (map (fun vh => match snd vh with Some errs => errs | None => [] end)
                (snd action))) s).

(** The position of the first declared code whose normalised name is [name]. *)
Fixpoint first_index (name : string) (codes : list string) : nat :=
  match codes with
  | [] => 0
  | c :: r => if String.eqb (get_error_code_name c) name then 0 else S (first_index name r)
  end.

(* ------------------------------------------------------------------ *)
(** ** Local method names ([_lowercase_api_name]) *)







(* ------------------------------------------------------------------ *)
(** ** Local method names, position by position *)








(** Every handler of the schema has an [errors] key. *)
Definition handlers_have_errors (s : schema) : bool :=
  forallb (fun action =>
    forallb (fun vh => match snd vh with Some _ => true | None => false end) (snd action)) s.


(** A byte of an ASCII URL that [str.strip] does not remove. *)
Definition url_char_ok (c : ascii) : bool := (code c <? 128)%nat && negb (is_space c).

(** A byte of the host or port text: no [:], [/], [?], [#], [[] or []]. *)
Definition netloc_char_ok (c : ascii) : bool := url_char_ok c && negb (mem c (to_list ":/?#[]")).

(** The rest of the URI after the port: empty, or a path, query or fragment. *)
Definition rest_ok (rest : string) : bool :=
  match to_list rest with [] => true | c :: _ => mem c (to_list "/?#") end &&
  forallb url_char_ok (to_list rest).

(* ------------------------------------------------------------------ *)
(** ** Escaping of list items *)

(** Escaping every comma of an item as [\,], the form the docstrings of
    [_parse_csv_list_safely] and [SchemaParameterAction.parse_list] describe. *)
Fixpoint escape_csv_item (s : string) : string :=
  match s with
  | EmptyString => EmptyString
  | String c r =>
      if Ascii.eqb c ","%char then String "\"%char (String ","%char (escape_csv_item r))
      else String c (escape_csv_item r)
  end.


(* ------------------------------------------------------------------ *)
(** ** Command-line parsing ([SchemaParameterAction]) *)

(** The Python values [parse_argument] builds from command-line text:
    [str], [int], [bool], [float] (an IEEE double), [list] and [dict]; a
    [dict] is kept as the list of its entries in insertion order. *)
Inductive cval : Type :=
| CStr (s : string)
| CInt (z : Z)
| CBool (b : bool)
| CFloat (f : PrimFloat.float)
| CList (l : list cval)
| CMap (m : list (cval * cval)).

(** The exceptions [parse_argument] lets out: [UsageError(stdout, stderr,
    error_code)], and the Python exceptions it does not catch. *)
Inductive cli_error : Type :=
| UsageError (stdout : option string) (stderr : option string) (error_code : option Z)
| PyErr (e : py_error).

Inductive cres (A : Type) : Type :=
| COk (a : A)
| CErr (e : cli_error).
Arguments COk {A} a.
Arguments CErr {A} e.

Definition cbind {A B} (m : cres A) (k : A -> cres B) : cres B :=
  match m with COk a => k a | CErr e => CErr e end.

(** Python's [float == int], exact on the value of the double. *)
Definition float_eq_z (f : PrimFloat.float) (z : Z) : bool :=
  match FloatOps.Prim2SF f with
  | SpecFloat.S754_zero _ => (z =? 0)%Z
  | SpecFloat.S754_finite s m e =>
      let q := if s then Z.neg m else Z.pos m in
      if (0 <=? e)%Z then (q * 2 ^ e =? z)%Z else (q =? z * 2 ^ (- e))%Z
  | _ => false
  end.

Definition cval_num (v : cval) : option Z :=
  match v with
  | CInt z => Some z
  | CBool b => Some (if b then 1 else 0)%Z
  | _ => None
  end.

(** Key equality of a [dict] on hashable keys: [==] between the values,
    [bool] being a subclass of [int] and [int] comparing exactly with
    [float]. *)
Definition cval_key_eq (a b : cval) : bool :=
  match a, b with
  | CStr x, CStr y => String.eqb x y
  | CFloat f, CFloat g => PrimFloat.eqb f g
  | CFloat f, _ => match cval_num b with Some z => float_eq_z f z | None => false end
  | _, CFloat g => match cval_num a with Some z => float_eq_z g z | None => false end
  | _, _ =>
      match cval_num a, cval_num b with
      | Some x, Some y => (x =? y)%Z
      | _, _ => false
      end
  end.

Definition hashable (v : cval) : bool :=
  match v with CList _ | CMap _ => false | _ => true end.

(** [result[key] = value]: an equal key keeps its place (and the key object
    first stored) and gets the new value; a new key goes last. *)
Fixpoint cdict_set (d : list (cval * cval)) (k v : cval) : list (cval * cval) :=
  match d with
  | [] => [(k, v)]
  | (k', v') :: r => if cval_key_eq k' k then (k', v) :: r else (k', v') :: cdict_set r k v
  end.

Section CliParse.

(** [int(value)] and [float(value)] on a string: [None] when they raise
    [ValueError]. *)
Variable int_of_str : string -> option Z.
Variable float_of_str : string -> option PrimFloat.float.

(** The message of the [UsageError] that [parse_argument] raises in place
    of any other exception. *)
Definition parse_failure (value ty : string) : cli_error :=
  UsageError None (Some ("Couldn't parse value " ++ str_repr value ++ " as " ++ ty ++ nl))
    (Some 1%Z).

(** The [try] of [parse_argument]: a [UsageError] goes through, any other
    exception is replaced. *)
Definition parse_guard (value ty : string) (r : cres cval) : cres cval :=
  match r with
  | COk v => COk v
  | CErr (UsageError o e c) => CErr (UsageError o e c)
  | CErr (PyErr _) => CErr (parse_failure value ty)
  end.

Section Loops.

Variable parse_item : string -> cres cval.

(** The list comprehension of [parse_list] over the non-empty items. *)
Fixpoint parse_list_loop (items : list string) : cres (list cval) :=
  match items with
  | [] => COk []
  | x :: r =>
      cbind (parse_item x) (fun y => cbind (parse_list_loop r) (fun ys => COk (y :: ys)))
  end.

Variable parse_key parse_value : string -> cres cval.

(** The loop of [parse_mapping], pulling the pairs out of
    [_parse_csv_mapping_safely] one at a time. *)
Fixpoint parse_mapping_loop (items : list string) (result : list (cval * cval))
    : cres (list (cval * cval)) :=
  match items with
  | [] => COk result
  | it :: r =>
      match partition_eq (to_list it) with
      | None => CErr (PyErr (ValueError ("invalid key/value pair " ++ it)))
      | Some (k, v) =>
          cbind (parse_key k) (fun key =>
          cbind (parse_value v) (fun value =>
          if hashable key then parse_mapping_loop r (cdict_set result key value)
          else CErr (PyErr (TypeError "unhashable type"))))
      end
  end.

End Loops.

(** [SchemaParameterAction.parse_argument(parameter, value)].  The handler
    [parse_<type>] is looked up outside the [try]: a type with no handler
    raises [AttributeError].  The type [argument] finds [parse_argument]
    itself, which recurses until Python's recursion limit; the
    [RecursionError] is then caught by an enclosing [try]. *)
Fixpoint parse_argument (p : param) (value : string) {struct p} : cres cval :=
  match p with
  | mkParam ty _ _ item key vparam _ =>
      let suffix := underscores ty in
      if existsb (String.eqb suffix)
           ["raw_string"; "enum"; "unicode"; "unicode_line"; "unicode_title";
            "file"; "date"; "data"] then COk (CStr value)
      else if String.eqb suffix "integer" then
        parse_guard value ty
          (match int_of_str value with
           | Some z => COk (CInt z)
           | None => CErr (PyErr (ValueError "invalid literal for int()"))
           end)
      else if String.eqb suffix "float" then
        parse_guard value ty
          (match float_of_str value with
           | Some f => COk (CFloat f)
           | None => CErr (PyErr (ValueError "could not convert string to float"))
           end)
      else if String.eqb suffix "boolean" then COk (CBool (String.eqb value "true"))
      else if String.eqb suffix "list" then
        parse_guard value ty
          (let items := filter (fun s => negb (String.eqb s "")) (parse_csv_list_safely value) in
           match items, item with
           | [], _ => COk (CList [])
           | _, None => CErr (PyErr (KeyError "item"))
           | _, Some it => cbind (parse_list_loop (parse_argument it) items)
                                 (fun l => COk (CList l))
           end)
      else if String.eqb suffix "mapping" then
        parse_guard value ty
          (match key, vparam with
           | None, _ => CErr (PyErr (KeyError "key"))
           | _, None => CErr (PyErr (KeyError "value"))
           | Some kp, Some vp =>
               cbind (parse_mapping_loop (parse_argument kp) (parse_argument vp)
                        (parse_csv_list_safely value) [])
                     (fun m => COk (CMap m))
           end)
      else if String.eqb suffix "argument" then
        parse_guard value ty (CErr (PyErr (TypeError "maximum recursion depth exceeded")))
      else CErr (PyErr (AttributeError ("parse_" ++ suffix)))
  end.

End CliParse.

(* ------------------------------------------------------------------ *)
(** ** Command-line helpers of [CommandLine] *)

(** [s.split(sep, 1)]. *)
Definition split_once (sep : ascii) (s : string) : list string :=
  let l := to_list s in
  match find_char sep l with
  | Some i => [of_list (firstn i l); of_list (skipn (S i) l)]
  | None => [s]
  end.

(** The loop of [call_arbitrary_action] building [arguments] from the
    [KEY=VALUE] words given on the command line. *)
Fixpoint call_arbitrary_arguments (argument : list string) (arguments : list (string * string))
    : res (list (string * string)) :=
  match argument with
  | [] => Ok arguments
  | arg :: r =>
      match split_once "="%char arg with
      | [key; value] => call_arbitrary_arguments r (dict_set arguments key value)
      | _ => Err (ValueError "not enough values to unpack (expected 2, got 1)")
      end
  end.

(** An [HTTPError] as [_format_api_error] reads it: [error_code] and
    [error_message] (JSON values, [None] when absent), and for a
    [MultiError] its sub-errors. *)
Inductive api_error : Type :=
| mkAPIError (error_code : pyval) (error_message : pyval) (errors : option (list api_error)).

(** ["%s" % v] after [v.encode("utf-8")] when [v] is a [str]. *)
Definition format_field (v : pyval) : string :=
  match v with
  | PStr s => py_str (PBytes s)
  | _ => py_str v
  end.

(** The text [_format_api_error] writes to [stderr]. *)
Fixpoint format_api_error (e : api_error) : string :=
  match e with
  | mkAPIError code message subs =>
      "Error code: " ++ format_field code ++ nl ++
      "Error message: " ++ format_field message ++ nl ++
      match subs with
      | None => ""
      | Some l => String.concat "" (map format_api_error l)
      end
  end.

(** A pair of strings as a pair of parsed command-line values. *)
Definition cpair (kv : string * string) : cval * cval := (CStr (fst kv), CStr (snd kv)).

(* ================================================================== *)
(** * Properties *)

(* ------------------------------------------------------------------ *)
(** ** Lemmas on the field loop *)

Section FieldLoop.

Variable enc : param -> string -> pyval -> res wire.

Lemma dict_get_pop_none : forall (d : list (string * pyval)) k n,
  dict_get d n = None -> dict_get (dict_pop d k) n = None.
Proof.
  induction d as [|[k' v] r IH]; intros k n H; simpl in *; [reflexivity|].
  destruct (String.eqb n k') eqn:E; [discriminate|].
  destruct (String.eqb k k'); simpl; [exact H|].
  rewrite E. apply IH; exact H.
Qed.

Lemma dict_get_pop_other : forall (d : list (string * pyval)) k n,
  String.eqb n k = false -> dict_get (dict_pop d k) n = dict_get d n.
Proof.
  induction d as [|[k' v] r IH]; intros k n H; simpl; [reflexivity|].
  destruct (String.eqb k k') eqn:E.
  - apply String.eqb_eq in E; subst k'. rewrite H. reflexivity.
  - simpl. destruct (String.eqb n k'); [reflexivity|]. apply IH; exact H.
Qed.

Lemma struct_loop_app : forall pre post args prefix acc,
  struct_loop enc (pre ++ post) args prefix acc =
  match struct_prefix enc pre args prefix acc with
  | Ok (a, acc') => struct_loop enc post a prefix acc'
  | Err e => Err e
  end.
Proof.
  induction pre as [|[n p] fs IH]; intros post args prefix acc; simpl; [reflexivity|].
  destruct (dict_get args n) as [v|].
  - destruct (enc p (prefix ++ n) v) as [r|e]; simpl; [apply IH|reflexivity].
  - destruct (p_optional p); [apply IH|reflexivity].
Qed.

Lemma struct_loop_prefix : forall fields args prefix acc,
  struct_loop enc fields args prefix acc =
  match struct_prefix enc fields args prefix acc with
  | Ok ([], acc') => Ok acc'
  | Ok (a, _) => Err (ExtraArguments (PDict a))
  | Err e => Err e
  end.
Proof.
  intros fields args prefix acc.
  rewrite <- (app_nil_r fields) at 1. rewrite struct_loop_app.
  destruct (struct_prefix enc fields args prefix acc) as [[a acc']|e]; [|reflexivity].
  destruct a; reflexivity.
Qed.

Lemma struct_prefix_absent : forall fields args prefix acc a acc' n,
  struct_prefix enc fields args prefix acc = Ok (a, acc') ->
  dict_get args n = None -> dict_get a n = None.
Proof.
  induction fields as [|[m p] fs IH]; intros args prefix acc a acc' n Hrun Hn;
    simpl in Hrun.
  - inversion Hrun; subst; exact Hn.
  - destruct (dict_get args m) as [v|].
    + destruct (enc p (prefix ++ m) v) as [r|e]; simpl in Hrun; [|discriminate].
      eapply IH; [exact Hrun|]. apply dict_get_pop_none; exact Hn.
    + destruct (p_optional p); [|discriminate]. eapply IH; eassumption.
Qed.

Lemma struct_prefix_undeclared : forall fields args prefix acc a acc' n,
  struct_prefix enc fields args prefix acc = Ok (a, acc') ->
  declared fields n = false -> dict_get args n <> None -> dict_get a n <> None.
Proof.
  induction fields as [|[m p] fs IH]; intros args prefix acc a acc' n Hrun Hd Hn;
    simpl in Hrun.
  - inversion Hrun; subst; exact Hn.
  - unfold declared in Hd; simpl in Hd. apply orb_false_iff in Hd as [Hnm Hd].
    destruct (dict_get args m) as [v|].
    + destruct (enc p (prefix ++ m) v) as [r|e]; simpl in Hrun; [|discriminate].
      eapply IH; [exact Hrun|exact Hd|]. rewrite dict_get_pop_other; assumption.
    + destruct (p_optional p); [|discriminate]. eapply IH; eassumption.
Qed.

End FieldLoop.

Section Leftovers.

Variable enc : param -> string -> pyval -> res wire.

Lemma dict_get_none_keys : forall (d : list (string * pyval)) m kv,
  dict_get d m = None -> In kv d -> String.eqb (fst kv) m = false.
Proof.
  induction d as [|[k v] r IH]; intros m kv H Hin; [destruct Hin|].
  simpl in H. destruct (String.eqb m k) eqn:E; [discriminate|].
  destruct Hin as [<-|Hin]; [|apply IH; assumption].
  simpl. rewrite String.eqb_sym. exact E.
Qed.

Lemma filter_keep_all : forall (f : string * pyval -> bool) (l : list (string * pyval)),
  (forall kv, In kv l -> f kv = true) -> filter f l = l.
Proof.
  intros f l H; induction l as [|x r IH]; simpl; [reflexivity|].
  rewrite (H x (or_introl eq_refl)). f_equal. apply IH. intros kv Hin; apply H; right; exact Hin.
Qed.

Lemma dict_pop_filter : forall (d : list (string * pyval)) k,
  NoDup (map fst d) ->
  dict_pop d k = filter (fun kv => negb (String.eqb (fst kv) k)) d.
Proof.
  induction d as [|[k' v] r IH]; intros k Hnd; simpl; [reflexivity|].
  inversion Hnd as [|? ? Hnotin Hnd']; subst.
  destruct (String.eqb k k') eqn:E.
  - apply String.eqb_eq in E; subst k'. rewrite String.eqb_refl. simpl.
    symmetry. apply filter_keep_all. intros [k2 v2] Hin. simpl.
    destruct (String.eqb k2 k) eqn:E2; [|reflexivity].
    apply String.eqb_eq in E2; subst k2. exfalso. apply Hnotin.
    apply (in_map fst _ _ Hin).
  - rewrite String.eqb_sym, E. simpl. f_equal. apply IH; exact Hnd'.
Qed.

Lemma dict_pop_nodup : forall (d : list (string * pyval)) k,
  NoDup (map fst d) -> NoDup (map fst (dict_pop d k)).
Proof.
  induction d as [|[k' v] r IH]; intros k Hnd; simpl; [constructor|].
  inversion Hnd as [|? ? Hnotin Hnd']; subst.
  destruct (String.eqb k k'); [exact Hnd'|].
  simpl. constructor; [|apply IH; exact Hnd'].
  intro Hin. apply Hnotin.
  clear - Hin. induction r as [|[k2 v2] r IH]; simpl in *; [exact Hin|].
  destruct (String.eqb k k2); [right; exact Hin|].
  simpl in Hin. destruct Hin as [->|Hin]; [left; reflexivity|right; apply IH; exact Hin].
Qed.

Lemma struct_prefix_leftover : forall fields args prefix acc rest acc',
  NoDup (map fst args) ->
  struct_prefix enc fields args prefix acc = Ok (rest, acc') ->
  rest = filter (fun kv => negb (declared fields (fst kv))) args.
Proof.
  induction fields as [|[m p] fs IH]; intros args prefix acc rest acc' Hnd Hrun;
    simpl in Hrun.
  - inversion Hrun; subst. symmetry. apply filter_keep_all. reflexivity.
  - destruct (dict_get args m) as [v|] eqn:Hm.
    + destruct (enc p (prefix ++ m) v) as [r|e]; simpl in Hrun; [|discriminate].
      rewrite (IH _ _ _ _ _ (dict_pop_nodup args m Hnd) Hrun).
      rewrite (dict_pop_filter args m Hnd).
      clear. induction args as [|[k v] r IH]; simpl; [reflexivity|].
      unfold declared at 2; simpl. fold (declared fs k).
      destruct (String.eqb k m); simpl; [exact IH|].
      destruct (declared fs k); simpl; [exact IH|f_equal; exact IH].
    + destruct (p_optional p); [|discriminate].
      rewrite (IH _ _ _ _ _ Hnd Hrun).
      apply filter_ext_in. intros [k v] Hin.
      pose proof (dict_get_none_keys args m (k, v) Hm Hin) as Hk; simpl in Hk.
      unfold declared; simpl. rewrite Hk. reflexivity.
Qed.

End Leftovers.

(* ------------------------------------------------------------------ *)
(** ** Properties of the parameter encoder *)

(** C2 (as stated): an absent required parameter makes the encoding fail
    with [MissingParameter].  It does not when a declared field before it
    fails first: here a mapping given as a string without [=] is refused
    with [ValueError] while the required [b] is absent. *)
Lemma missing_parameter_not_first_error :
  let fields := [("m", mapping_of (scalar "raw_string") (scalar "raw_string"));
                 ("b", scalar "integer")] in
  let args := [("m", PStr "oops")] in
  dict_get args "b" = None /\ p_optional (scalar "integer") = false /\
  encode_struct_fields no_files fields args "" = Err (ValueError "invalid key/value pair oops").
Proof. repeat split; reflexivity. Qed.

(** C2 (amended): encoding the declared fields never succeeds when a
    required declared parameter is absent or a supplied argument is not
    declared; an absent required parameter fails with [MissingParameter]
    once the fields before it have been encoded without error; when all
    declared fields have been processed, the unconsumed arguments (exactly
    the undeclared ones) are refused with [ExtraArguments]; an absent
    optional parameter is skipped and contributes nothing. *)
Theorem encode_struct_fields_missing_extra :
  forall read_file fields args prefix,
  (forall r, encode_struct_fields read_file fields args prefix = Ok r ->
     (forall n p, In (n, p) fields -> p_optional p = false -> dict_get args n <> None) /\
     (forall n, dict_get args n <> None -> declared fields n = true)) /\
  (forall pre n p post st,
     fields = (pre ++ (n, p) :: post)%list -> p_optional p = false -> dict_get args n = None ->
     struct_prefix (encode_argument read_file) pre args prefix [] = Ok st ->
     encode_struct_fields read_file fields args prefix = Err (MissingParameter n)) /\
  (forall rest acc, NoDup (map fst args) ->
     struct_prefix (encode_argument read_file) fields args prefix [] = Ok (rest, acc) ->
     rest <> [] ->
     rest = filter (fun kv => negb (declared fields (fst kv))) args /\
     encode_struct_fields read_file fields args prefix = Err (ExtraArguments (PDict rest))) /\
  (forall pre n p post,
     fields = (pre ++ (n, p) :: post)%list -> p_optional p = true -> dict_get args n = None ->
     encode_struct_fields read_file fields args prefix =
     encode_struct_fields read_file (pre ++ post)%list args prefix).
Proof.
  intros rf fields args prefix. unfold encode_struct_fields.
  set (enc := encode_argument rf).
  split; [|split; [|split]].
  - intros r Hok. split.
    + intros n p Hin Hreq Hn.
      apply in_split in Hin as [pre [post ->]].
      rewrite struct_loop_app in Hok.
      destruct (struct_prefix enc pre args prefix []) as [[a acc']|e] eqn:Hpre;
        [|discriminate].
      pose proof (struct_prefix_absent enc _ _ _ _ _ _ n Hpre Hn) as Ha.
      simpl in Hok. rewrite Ha, Hreq in Hok. discriminate.
    + intros n Hn. destruct (declared fields n) eqn:Hd; [reflexivity|exfalso].
      rewrite struct_loop_prefix in Hok.
      destruct (struct_prefix enc fields args prefix []) as [[a acc']|e] eqn:Hrun;
        [|discriminate].
      pose proof (struct_prefix_undeclared enc _ _ _ _ _ _ n Hrun Hd Hn) as Ha.
      destruct a; [apply Ha; reflexivity|discriminate].
  - intros pre n p post st -> Hreq Hn Hpre.
    rewrite struct_loop_app, Hpre. destruct st as [a acc'].
    simpl. rewrite (struct_prefix_absent enc _ _ _ _ _ _ n Hpre Hn), Hreq. reflexivity.
  - intros rest acc Hnd Hrun Hne. split.
    + exact (struct_prefix_leftover enc _ _ _ _ _ _ Hnd Hrun).
    + rewrite struct_loop_prefix, Hrun. destruct rest; [contradiction|reflexivity].
  - intros pre n p post -> Hopt Hn.
    rewrite !struct_loop_app.
    destruct (struct_prefix enc pre args prefix []) as [[a acc']|e] eqn:Hpre;
      [|reflexivity].
    simpl. rewrite (struct_prefix_absent enc _ _ _ _ _ _ n Hpre Hn), Hopt. reflexivity.
Qed.

Lemma encode_struct_fields_missing_extra_witness :
  encode_struct_fields no_files [("a", scalar "integer")] [] "" = Err (MissingParameter "a").
Proof.
  apply (proj1 (proj2 (encode_struct_fields_missing_extra no_files
           [("a", scalar "integer")] [] ""))
         [] "a" (scalar "integer") [] ([], [])); reflexivity.
Defined.

(** C3: an optional parameter whose supplied value equals ([==]) its
    declared default is encoded to nothing; for a boolean optional
    parameter with default [False], passing [False] omits the key and
    passing [True] sends it as ["true"]. *)
Theorem encode_default_omitted :
  forall read_file p name v,
  p_optional p = true -> py_eq v (p_default p) = true ->
  encode_argument read_file p name v = Ok [] /\
  encode_struct_fields read_file [(name, opt_scalar "boolean" (PBool false))]
    [(name, PBool false)] "" = Ok [] /\
  encode_struct_fields read_file [(name, opt_scalar "boolean" (PBool false))]
    [(name, PBool true)] "" = Ok [(name, WStr "true")].
Proof.
  intros rf [ty opt d it k va fl] name v Hopt Heq; simpl in Hopt, Heq.
  split; [|split].
  - simpl. rewrite Hopt, Heq. reflexivity.
  - unfold encode_struct_fields. cbn [struct_loop dict_get dict_pop fst snd].
    rewrite String.eqb_refl. reflexivity.
  - unfold encode_struct_fields. cbn [struct_loop dict_get dict_pop fst snd].
    rewrite String.eqb_refl. reflexivity.
Qed.

Lemma encode_default_omitted_witness :
  encode_argument no_files (opt_scalar "boolean" (PBool false)) "flag" (PInt 0) = Ok [].
Proof.
  exact (proj1 (encode_default_omitted no_files (opt_scalar "boolean" (PBool false))
                  "flag" (PInt 0) eq_refl eq_refl)).
Defined.

(** C5: a list parameter supplied as a string is split by [str.split(",")]
    on every comma, escaped or not, whereas the escaped-comma splitter used
    by the command line and by [_encode_mapping] keeps ["b,c"] together:
    ["a,b\,c"] is sent as three items [a], [b\] and [c]. *)
Theorem encode_list_splits_escaped_comma :
  forall read_file,
  encode_argument read_file (list_of (scalar "raw_string")) "tags" (PStr "a,b\,c") =
    Ok [("tags.1", WStr "a"); ("tags.2", WStr "b\"); ("tags.3", WStr "c")] /\
  parse_csv_list_safely "a,b\,c" = ["a"; "b,c"].
Proof. intros rf. split; reflexivity. Qed.

(** C7: a [unicode] parameter (and its [unicode_line] and [unicode_title]
    variants) redirects dates to the date encoding, but every [str] value
    makes [str(value, "utf-8")] raise [TypeError] instead of being sent. *)
Theorem encode_unicode_rejects_str :
  forall read_file ty name s y m d,
  In ty ["unicode"; "unicode line"; "unicode_line"; "unicode title"; "unicode_title"] ->
  encode_argument read_file (scalar ty) name (PStr s) =
    Err (TypeError "decoding str is not supported") /\
  encode_argument read_file (scalar ty) name (PDate y m d) =
    encode_argument read_file (scalar "date") name (PDate y m d).
Proof.
  intros rf ty name s y m d Hin.
  repeat (destruct Hin as [<-|Hin]; [split; reflexivity|]). destruct Hin.
Qed.

Lemma encode_unicode_rejects_str_witness :
  encode_argument no_files (scalar "unicode") "title" (PStr "abc") =
    Err (TypeError "decoding str is not supported").
Proof.
  exact (proj1 (encode_unicode_rejects_str no_files "unicode" "title" "abc" 2020 1 1
                  (or_introl eq_refl))).
Defined.

Lemma to_list_of_list : forall l, to_list (of_list l) = l.
Proof. induction l as [|c r IH]; simpl; [reflexivity|rewrite IH; reflexivity]. Qed.

Lemma to_list_lower : forall s, to_list (lower s) = map lower_char (to_list s).
Proof. induction s as [|c r IH]; simpl; [reflexivity|rewrite IH; reflexivity]. Qed.









(* ------------------------------------------------------------------ *)
(** ** Dictionaries *)

Section Dicts.

Context {A : Type}.
Implicit Types (d e : list (string * A)) (k : string) (v : A).

Lemma dict_get_set : forall d k v k',
  dict_get (dict_set d k v) k' = if String.eqb k' k then Some v else dict_get d k'.
Proof.
  induction d as [|[k0 v0] r IH]; intros k v k'; simpl.
  - destruct (String.eqb k' k); reflexivity.
  - destruct (String.eqb_spec k k0) as [->|Hne]; simpl.
    + destruct (String.eqb k' k0); reflexivity.
    + rewrite IH.
      destruct (String.eqb_spec k' k) as [->|]; [|reflexivity].
      destruct (String.eqb_spec k k0); [contradiction|reflexivity].
Qed.

Lemma dict_set_keys : forall d k v x,
  In x (map fst (dict_set d k v)) -> x = k \/ In x (map fst d).
Proof.
  induction d as [|[k0 v0] r IH]; intros k v x H; simpl in *.
  - destruct H as [H|[]]. left; symmetry; exact H.
  - destruct (String.eqb k k0); simpl in H.
    + right; exact H.
    + destruct H as [H|H]; [right; left; exact H|].
      destruct (IH _ _ _ H); [left|right; right]; assumption.
Qed.

Lemma dict_set_nodup : forall d k v, NoDup (map fst d) -> NoDup (map fst (dict_set d k v)).
Proof.
  induction d as [|[k0 v0] r IH]; intros k v H; simpl in *.
  - constructor; [intros []|constructor].
  - inversion H as [|? ? Hn Hr]; subst.
    destruct (String.eqb_spec k k0); simpl; constructor; auto.
    intros Hin. destruct (dict_set_keys _ _ _ _ Hin) as [->|]; [congruence|contradiction].
Qed.

Lemma dict_get_notin : forall d k, ~ In k (map fst d) -> dict_get d k = None.
Proof.
  induction d as [|[k0 v0] r IH]; intros k H; simpl in *; [reflexivity|].
  destruct (String.eqb_spec k k0) as [->|]; [exfalso; apply H; left; reflexivity|].
  apply IH. intros Hin; apply H; right; exact Hin.
Qed.

Lemma dict_get_some_in : forall d k v, dict_get d k = Some v -> In k (map fst d).
Proof.
  induction d as [|[k0 v0] r IH]; intros k v H; simpl in *; [discriminate|].
  destruct (String.eqb_spec k k0) as [->|]; [left; reflexivity|right; eapply IH; exact H].
Qed.

Lemma dict_get_nodup_in : forall d k v, NoDup (map fst d) -> In (k, v) d -> dict_get d k = Some v.
Proof.
  induction d as [|[k0 v0] r IH]; intros k v Hn Hin; simpl in *; [contradiction|].
  inversion Hn as [|? ? Hk Hr]; subst.
  destruct Hin as [Heq|Hin].
  - injection Heq as -> ->. rewrite String.eqb_refl. reflexivity.
  - destruct (String.eqb_spec k k0) as [->|]; [|apply IH; assumption].
    exfalso; apply Hk. change k0 with (fst (k0, v)). apply in_map; exact Hin.
Qed.

Lemma dict_set_absent : forall d k v, ~ In k (map fst d) -> dict_set d k v = (d ++ [(k, v)])%list.
Proof.
  induction d as [|[k0 v0] r IH]; intros k v H; simpl in *; [reflexivity|].
  destruct (String.eqb_spec k k0) as [->|]; [exfalso; apply H; left; reflexivity|].
  rewrite IH; [reflexivity|]. intros Hin; apply H; right; exact Hin.
Qed.

Lemma dict_set_same : forall d k v, dict_get d k = Some v -> dict_set d k v = d.
Proof.
  induction d as [|[k0 v0] r IH]; intros k v H; simpl in *; [discriminate|].
  destruct (String.eqb_spec k k0) as [->|]; [injection H as ->; reflexivity|].
  rewrite IH; [reflexivity|exact H].
Qed.

Lemma dict_update_cons : forall d kv e,
  dict_update d (kv :: e) = dict_update (dict_set d (fst kv) (snd kv)) e.
Proof. reflexivity. Qed.

Lemma dict_update_get : forall e d k, NoDup (map fst e) ->
  dict_get (dict_update d e) k =
  match dict_get e k with Some v => Some v | None => dict_get d k end.
Proof.
  induction e as [|[k0 v0] r IH]; intros d k Hn; [reflexivity|].
  inversion Hn as [|? ? Hk Hr]; subst.
  rewrite dict_update_cons, IH by exact Hr. simpl. rewrite dict_get_set.
  destruct (String.eqb_spec k k0) as [->|].
  - rewrite (dict_get_notin r k0 Hk). reflexivity.
  - reflexivity.
Qed.

Lemma dict_update_nodup : forall e d, NoDup (map fst d) -> NoDup (map fst (dict_update d e)).
Proof.
  induction e as [|kv r IH]; intros d Hn; [exact Hn|].
  rewrite dict_update_cons. apply IH, dict_set_nodup, Hn.
Qed.

Lemma dict_update_stable : forall e d,
  (forall k v, In (k, v) e -> dict_get d k = Some v) -> dict_update d e = d.
Proof.
  induction e as [|[k0 v0] r IH]; intros d H; [reflexivity|].
  rewrite dict_update_cons. simpl.
  rewrite (dict_set_same d k0 v0) by (apply H; left; reflexivity).
  apply IH. intros k v Hin; apply H; right; exact Hin.
Qed.

End Dicts.

(* ------------------------------------------------------------------ *)
(** ** The error taxonomy *)

Lemma to_list_app : forall s t, to_list (s ++ t) = (to_list s ++ to_list t)%list.
Proof. induction s as [|c r IH]; intros t; simpl; [reflexivity|rewrite IH; reflexivity]. Qed.

Lemma of_list_app : forall l m, of_list (l ++ m)%list = of_list l ++ of_list m.
Proof. induction l as [|c r IH]; intros m; simpl; [reflexivity|rewrite IH; reflexivity]. Qed.

Lemma prefix_app : forall s t, String.prefix s (s ++ t) = true.
Proof.
  induction s as [|c r IH]; intros t; [destruct t; reflexivity|].
  simpl. destruct (ascii_dec c c); [apply IH|contradiction].
Qed.

Lemma get_error_code_name_idem : forall c,
  get_error_code_name (get_error_code_name c) = get_error_code_name c.
Proof.
  intros c. unfold get_error_code_name.
  destruct (ends_with "Error" c) eqn:E; [rewrite E; reflexivity|].
  replace (ends_with "Error" (c ++ "Error")) with true; [reflexivity|].
  symmetry. unfold ends_with. rewrite to_list_app, rev_app_distr, of_list_app.
  apply prefix_app.
Qed.

Lemma get_error_code_name_ends : forall c, ends_with "Error" (get_error_code_name c) = true.
Proof.
  intros c. unfold get_error_code_name.
  destruct (ends_with "Error" c) eqn:E; [exact E|].
  unfold ends_with. rewrite to_list_app, rev_app_distr, of_list_app. apply prefix_app.
Qed.

Lemma own_attrs_not_error : forall nm,
  ends_with "Error" nm = true ->
  existsb (String.eqb nm) container_data_attrs = false /\
  existsb (String.eqb nm) container_class_attrs = false.
Proof.
  intros nm H. split; apply Bool.not_true_iff_false; intros E;
    apply existsb_exists in E as [x [Hx Ex]]; apply String.eqb_eq in Ex; subst x;
    cbn [container_data_attrs container_class_attrs In] in Hx;
    repeat (destruct Hx as [<-|Hx]; [vm_compute in H; discriminate H|]); destruct Hx.
Qed.

(** A name ending with [Error] is looked up in the instance's [__dict__] only. *)
Lemma lookup_error_name : forall reg nm,
  ends_with "Error" nm = true ->
  lookup_error reg nm = match dict_get reg nm with Some k => Some (Registered k) | None => None end.
Proof.
  intros reg nm H. destruct (own_attrs_not_error nm H) as [H1 H2].
  unfold lookup_error. rewrite H1, H2. destruct (dict_get reg nm); reflexivity.
Qed.

Lemma register_eq : forall reg n c,
  register (reg, n) c =
  match dict_get reg (get_error_code_name c) with
  | Some _ => (reg, S n)
  | None => (dict_set reg (get_error_code_name c) (mkKind (get_error_code_name c) n), S n)
  end.
Proof.
  intros reg n c. unfold register.
  rewrite (lookup_error_name reg _ (get_error_code_name_ends c)).
  destruct (dict_get reg (get_error_code_name c)); reflexivity.
Qed.

Lemma register_fold : forall codes reg n nm,
  dict_get (fst (fold_left register codes (reg, n))) nm =
    match dict_get reg nm with
    | Some k => Some k
    | None =>
        if existsb (fun c => String.eqb (get_error_code_name c) nm) codes
        then Some (mkKind nm (n + first_index nm codes)) else None
    end /\
  snd (fold_left register codes (reg, n)) = n + List.length codes.
Proof.
  induction codes as [|c r IH]; intros reg n nm; cbn [fold_left List.length existsb first_index].
  - cbn [fst snd]. split; [|lia]. destruct (dict_get reg nm); reflexivity.
  - rewrite register_eq.
    destruct (dict_get reg (get_error_code_name c)) as [k0|] eqn:Ec.
    + destruct (IH reg (S n) nm) as [IH1 IH2]. split; [|lia].
      rewrite IH1.
      destruct (String.eqb_spec (get_error_code_name c) nm) as [<-|Hne]; simpl.
      * rewrite Ec. reflexivity.
      * destruct (dict_get reg nm); [reflexivity|].
        destruct (existsb _ r); [|reflexivity]. f_equal. f_equal. lia.
    + destruct (IH (dict_set reg (get_error_code_name c) (mkKind (get_error_code_name c) n))
                   (S n) nm) as [IH1 IH2].
      split; [|transitivity (S n + List.length r); [exact IH2|lia]]. etransitivity; [exact IH1|]. rewrite dict_get_set.
      destruct (String.eqb_spec (get_error_code_name c) nm) as [<-|Hne]; simpl.
      * rewrite String.eqb_refl, Ec. rewrite Nat.add_0_r. reflexivity.
      * destruct (String.eqb_spec nm (get_error_code_name c)) as [->|]; [congruence|].
        destruct (dict_get reg nm); [reflexivity|].
        destruct (existsb _ r); [|reflexivity]. f_equal. f_equal. lia.
Qed.

Lemma register_fold_nodup : forall codes reg n,
  NoDup (map fst reg) -> NoDup (map fst (fst (fold_left register codes (reg, n)))).
Proof.
  induction codes as [|c r IH]; intros reg n H; cbn [fold_left]; [exact H|].
  rewrite register_eq.
  destruct (dict_get reg (get_error_code_name c)); apply IH; [exact H|].
  apply dict_set_nodup, H.
Qed.

Lemma build_inner : forall (vhs : list (string * option (list string))) (st : registry * nat),
  forallb (fun vh => match snd vh with Some _ => true | None => false end) vhs = true ->
  fold_left (fun acc vh =>
      st <- acc ;;
      match snd vh with
      | None => Err (KeyError "errors")
      | Some errs => Ok (fold_left register errs st)
      end) vhs (Ok st) =
  Ok (fold_left register
        (concat (map (fun vh => match snd vh with Some errs => errs | None => [] end) vhs)) st).
Proof.
  induction vhs as [|[v [errs|]] r IH]; intros st H; simpl in *; [reflexivity| |discriminate].
  rewrite IH by exact H. rewrite fold_left_app. reflexivity.
Qed.

Lemma build_exceptions_from_ok : forall s n,
  handlers_have_errors s = true ->
  build_exceptions_from s n = Ok (fold_left register (declared_codes s) ([], n)).
Proof.
  intros s n. unfold build_exceptions_from, declared_codes, handlers_have_errors.
  change ([] : registry, n) with (([] : registry), n).
  generalize (([] : registry), n) as st0. intros st0.
  revert st0. induction s as [|[a vhs] r IH]; intros st0 H; simpl in *; [reflexivity|].
  apply andb_true_iff in H as [H1 H2].
  rewrite build_inner by exact H1. rewrite IH by exact H2.
  rewrite fold_left_app. reflexivity.
Qed.

Lemma existsb_in_norm : forall codes nm,
  existsb (fun c => String.eqb (get_error_code_name c) nm) codes = true <->
  exists c, In c codes /\ get_error_code_name c = nm.
Proof.
  intros codes nm. rewrite existsb_exists. split.
  - intros [c [Hin He]]. exists c. split; [exact Hin|apply String.eqb_eq, He].
  - intros [c [Hin He]]. exists c. split; [exact Hin|apply String.eqb_eq, He].
Qed.

(** C4 (the raw code is not resolved): when every handler has an [errors]
    list, the taxonomy is built without error.  The instance's [__dict__]
    holds each declared code once, under its normalised name (the code with
    [Error] appended unless it already ends with it), bound to the class made
    for the first declared code with that name, and it holds no other name.
    Looking up the normalised name, or normalising it again first, finds that
    class; but looking up a declared code that does not end with [Error]
    (such as [UnknownComputer]) never finds a class of the taxonomy, so
    importing it from [landscape_api.base.errors] fails. *)
Theorem build_exceptions_raw_code_unresolved : forall s,
  handlers_have_errors s = true ->
  exists reg, build_exceptions s = Ok reg /\
    NoDup (map fst reg) /\
    (forall nm k, dict_get reg nm = Some k ->
       kind_name k = nm /\ exists c, In c (declared_codes s) /\ get_error_code_name c = nm) /\
    (forall c, In c (declared_codes s) ->
       let nm := get_error_code_name c in
       let k := mkKind nm (first_index nm (declared_codes s)) in
       lookup_error reg nm = Some (Registered k) /\
       lookup_error reg (get_error_code_name nm) = Some (Registered k) /\
       (ends_with "Error" c = false -> forall k', lookup_error reg c <> Some (Registered k'))).
Proof.
  intros s Hs. exists (fst (fold_left register (declared_codes s) ([], 0))).
  split; [unfold build_exceptions; rewrite build_exceptions_from_ok by exact Hs; reflexivity|].
  split; [|split].
  - apply register_fold_nodup. constructor.
  - intros nm k.
    destruct (register_fold (declared_codes s) [] 0 nm) as [H _].
    unfold registry in *. rewrite H. cbn [dict_get].
    destruct (existsb _ _) eqn:E; [|discriminate].
    intros Hk. injection Hk as <-. split; [reflexivity|].
    apply existsb_in_norm, E.
  - intros c Hin nm k. split; [|split].
    + unfold nm. rewrite (lookup_error_name _ _ (get_error_code_name_ends c)).
      destruct (register_fold (declared_codes s) [] 0 (get_error_code_name c)) as [H _].
      unfold registry in *. rewrite H. cbn [dict_get].
      replace (existsb _ _) with true; [reflexivity|].
      symmetry. apply existsb_in_norm. exists c. split; [exact Hin|reflexivity].
    + unfold nm. rewrite get_error_code_name_idem.
      rewrite (lookup_error_name _ _ (get_error_code_name_ends c)).
      destruct (register_fold (declared_codes s) [] 0 (get_error_code_name c)) as [H _].
      unfold registry in *. rewrite H. cbn [dict_get].
      replace (existsb _ _) with true; [reflexivity|].
      symmetry. apply existsb_in_norm. exists c. split; [exact Hin|reflexivity].
    + intros Hc k' Hl. unfold lookup_error in Hl.
      destruct (existsb (String.eqb c) container_data_attrs); [discriminate Hl|].
      destruct (register_fold (declared_codes s) [] 0 c) as [H _].
      unfold registry in *. rewrite H in Hl. cbn [dict_get] in Hl.
      destruct (existsb _ _) eqn:E.
      * apply existsb_in_norm in E as [c' [_ Ec']].
        pose proof (get_error_code_name_ends c') as Hend. rewrite Ec', Hc in Hend.
        discriminate Hend.
      * destruct (existsb (String.eqb c) container_class_attrs); discriminate Hl.
Qed.

Lemma build_exceptions_raw_code_unresolved_witness :
  handlers_have_errors
    [("GetComputers", [("2011-08-01", Some ["UnknownComputer"; "UnknownComputerError"])]);
     ("RemoveComputers", [("2011-08-01", Some ["UnknownComputer"; "InvalidTag"])])] = true /\
  (exists reg, build_exceptions
    [("GetComputers", [("2011-08-01", Some ["UnknownComputer"; "UnknownComputerError"])]);
     ("RemoveComputers", [("2011-08-01", Some ["UnknownComputer"; "InvalidTag"])])] = Ok reg /\
    NoDup (map fst reg) /\
    (forall nm k, dict_get reg nm = Some k ->
       kind_name k = nm /\ exists c, In c (declared_codes
         [("GetComputers", [("2011-08-01", Some ["UnknownComputer"; "UnknownComputerError"])]);
          ("RemoveComputers", [("2011-08-01", Some ["UnknownComputer"; "InvalidTag"])])]) /\
         get_error_code_name c = nm) /\
    (forall c, In c (declared_codes
      [("GetComputers", [("2011-08-01", Some ["UnknownComputer"; "UnknownComputerError"])]);
       ("RemoveComputers", [("2011-08-01", Some ["UnknownComputer"; "InvalidTag"])])]) ->
       let nm := get_error_code_name c in
       let k := mkKind nm (first_index nm (declared_codes
         [("GetComputers", [("2011-08-01", Some ["UnknownComputer"; "UnknownComputerError"])]);
          ("RemoveComputers", [("2011-08-01", Some ["UnknownComputer"; "InvalidTag"])])])) in
       lookup_error reg nm = Some (Registered k) /\
       lookup_error reg (get_error_code_name nm) = Some (Registered k) /\
       (ends_with "Error" c = false -> forall k', lookup_error reg c <> Some (Registered k')))) /\
  lookup_error [("UnknownComputerError", mkKind "UnknownComputerError" 0);
                ("InvalidTagError", mkKind "InvalidTagError" 3)] "UnknownComputer" = None.
Proof.
  split; [reflexivity|]. split; [|vm_compute; reflexivity].
  apply build_exceptions_raw_code_unresolved. reflexivity.
Defined.

(* ------------------------------------------------------------------ *)
(** ** The caller's parameter dictionary across [run_query] *)

Definition coerce_step (d : list (string * wval)) (kv : string * wval) : list (string * wval) :=
  dict_set (dict_pop d (fst kv)) (fst kv) (snd kv).

Lemma coerce_fold : forall xs ys : list (string * wval),
  (NoDup (map fst (xs ++ ys)) -> fold_left coerce_step xs (xs ++ ys) = ys ++ xs)%list.
Proof.
  induction xs as [|[k v] xs IH]; intros ys Hn; simpl.
  - rewrite app_nil_r. reflexivity.
  - inversion Hn as [|? ? Hk Hr]; subst.
    unfold coerce_step at 2. simpl. rewrite String.eqb_refl.
    rewrite dict_set_absent by exact Hk.
    rewrite <- app_assoc. rewrite IH.
    + rewrite <- app_assoc. reflexivity.
    + rewrite app_assoc, map_app.
      apply (Permutation_NoDup (l := k :: map fst (xs ++ ys))); [|constructor; assumption].
      apply Permutation_cons_append.
Qed.

Lemma coerce_params_id : forall p, NoDup (map fst p) -> coerce_params p = p.
Proof.
  intros p Hn. unfold coerce_params. fold coerce_step.
  rewrite <- (app_nil_r p) at 2. rewrite coerce_fold; [reflexivity|].
  rewrite app_nil_r. exact Hn.
Qed.

Lemma fixed_fields_nodup : forall ak action ts version,
  NoDup (map fst (fixed_fields ak action ts version)).
Proof.
  intros. cbn [fixed_fields map fst].
  repeat constructor; cbn [In]; intuition discriminate.
Qed.

Lemma sign_request_params : forall nfkc hmac ak sk action p uri version ts,
  snd (sign_request nfkc hmac ak sk action p uri version ts) =
  dict_update (coerce_params p) (fixed_fields ak action ts version).
Proof. reflexivity. Qed.

Lemma run_query_params : forall nfkc hmac fetch errors ak sk action p uri version ts,
  snd (run_query nfkc hmac fetch errors ak sk action p uri version ts) =
  snd (sign_request nfkc hmac ak sk action p uri version ts).
Proof.
  intros. unfold run_query.
  destruct (sign_request nfkc hmac ak sk action p uri version ts). reflexivity.
Qed.

Lemma sign_request_congr : forall nfkc hmac ak sk action p q uri version ts,
  dict_update (coerce_params p) (fixed_fields ak action ts version) =
  dict_update (coerce_params q) (fixed_fields ak action ts version) ->
  sign_request nfkc hmac ak sk action p uri version ts =
  sign_request nfkc hmac ak sk action q uri version ts.
Proof. intros * H. unfold sign_request. cbv zeta. rewrite H. reflexivity. Qed.

Lemma params_after_nodup : forall ak action ts version p,
  NoDup (map fst p) ->
  NoDup (map fst (dict_update (coerce_params p) (fixed_fields ak action ts version))).
Proof.
  intros. apply dict_update_nodup. rewrite coerce_params_id by assumption. assumption.
Qed.

Lemma params_after_fixed : forall ak action ts version p k v,
  In (k, v) (fixed_fields ak action ts version) ->
  dict_get (dict_update (coerce_params p) (fixed_fields ak action ts version)) k = Some v.
Proof.
  intros * Hin. rewrite dict_update_get by apply fixed_fields_nodup.
  rewrite (dict_get_nodup_in _ k v (fixed_fields_nodup _ _ _ _) Hin). reflexivity.
Qed.

(** C8: signing is a function of its inputs, and the timestamp enters it
    once, as one of the merged entries.  Running the signing step again on
    the dictionary the first run left behind, with the same keys, action,
    URI, version and timestamp, gives the same URI, POST body and signed
    host, and leaves the dictionary as it was. *)
Theorem sign_request_deterministic : forall nfkc hmac ak sk action p uri version ts,
  NoDup (map fst p) ->
  sign_request nfkc hmac ak sk action
    (snd (sign_request nfkc hmac ak sk action p uri version ts)) uri version ts =
  sign_request nfkc hmac ak sk action p uri version ts.
Proof.
  intros * Hn. apply sign_request_congr.
  rewrite sign_request_params.
  set (p1 := dict_update (coerce_params p) (fixed_fields ak action ts version)).
  rewrite (coerce_params_id p1) by (apply params_after_nodup; exact Hn).
  apply dict_update_stable. intros k v Hin. apply params_after_fixed. exact Hin.
Qed.

Lemma sign_request_deterministic_witness :
  NoDup (map fst [("id", WStr "1"); ("tags.1", WStr "web")]) /\
  sign_request (fun _ => true) (fun k m => k ++ m) "AK" "SK" "GetComputers"
    (snd (sign_request (fun _ => true) (fun k m => k ++ m) "AK" "SK" "GetComputers"
            [("id", WStr "1"); ("tags.1", WStr "web")] "https://landscape.example.com/api/"
            "2011-08-01" "2024-01-02T03:04:05Z"))
    "https://landscape.example.com/api/" "2011-08-01" "2024-01-02T03:04:05Z" =
  sign_request (fun _ => true) (fun k m => k ++ m) "AK" "SK" "GetComputers"
    [("id", WStr "1"); ("tags.1", WStr "web")] "https://landscape.example.com/api/"
    "2011-08-01" "2024-01-02T03:04:05Z".
Proof.
  assert (H : NoDup (map fst [("id", WStr "1"); ("tags.1", WStr "web")])).
  { cbn [map fst]. repeat constructor; cbn [In]; intuition discriminate. }
  split; [exact H|].
  apply sign_request_deterministic. exact H.
Defined.

(** C9: [run_query] changes the caller's dictionary in place, whatever its
    result (an answer, an error of [parse], of [encode] or of the transport):
    afterwards it holds the six merged entries [access_key_id], [action],
    [signature_version], [signature_method], [timestamp] and [version],
    every other key keeps its value, and no key appears twice. *)
Theorem run_query_mutates_params :
  forall nfkc hmac fetch errors ak sk action p uri version ts,
  NoDup (map fst p) ->
  let p' := snd (run_query nfkc hmac fetch errors ak sk action p uri version ts) in
  (forall k v, In (k, v) (fixed_fields ak action ts version) -> dict_get p' k = Some v) /\
  (forall k, ~ In k (map fst (fixed_fields ak action ts version)) -> dict_get p' k = dict_get p k) /\
  NoDup (map fst p').
Proof.
  intros * Hn p'. unfold p'. rewrite run_query_params, sign_request_params.
  split; [|split].
  - intros k v Hin. apply params_after_fixed. exact Hin.
  - intros k Hk. rewrite dict_update_get by apply fixed_fields_nodup.
    rewrite dict_get_notin by exact Hk. rewrite coerce_params_id by exact Hn. reflexivity.
  - apply params_after_nodup. exact Hn.
Qed.

Lemma run_query_mutates_params_witness :
  NoDup (map fst [("id", WStr "1")]) /\
  let p' := snd (run_query (fun _ => true) (fun k m => k ++ m)
                  (fun _ _ _ => HTTPFail 404 "Not Found" (Some "UnknownComputer")) []
                  "AK" "SK" "GetComputers" [("id", WStr "1")]
                  "https://landscape.example.com/api/" "2011-08-01" "2024-01-02T03:04:05Z") in
  (forall k v, In (k, v) (fixed_fields "AK" "GetComputers" "2024-01-02T03:04:05Z" "2011-08-01") ->
     dict_get p' k = Some v) /\
  (forall k, ~ In k (map fst (fixed_fields "AK" "GetComputers" "2024-01-02T03:04:05Z" "2011-08-01")) ->
     dict_get p' k = dict_get [("id", WStr "1")] k) /\
  NoDup (map fst p').
Proof.
  assert (H : NoDup (map fst [("id", WStr "1")])).
  { cbn [map fst]. repeat constructor; cbn [In]; intuition discriminate. }
  split; [exact H|].
  apply run_query_mutates_params. exact H.
Defined.

(* ------------------------------------------------------------------ *)
(** ** The canonical parameter string and the signature *)

Definition raw_lt (x y : string * wval) : Prop := pair_ltb (raw_pair x) (raw_pair y) = true.

Lemma insert_sorted_perm : forall {A} (key : A -> string * string) x l,
  Permutation (insert_sorted key x l) (x :: l).
Proof.
  intros A key x l. induction l as [|y r IH]; simpl; [reflexivity|].
  destruct (pair_ltb (key y) (key x)); [|reflexivity].
  rewrite IH. apply perm_swap.
Qed.

Lemma sort_perm : forall {A} (key : A -> string * string) l, Permutation (sort key l) l.
Proof.
  intros A key l. induction l as [|x r IH]; simpl; [reflexivity|].
  rewrite insert_sorted_perm, IH. reflexivity.
Qed.

Lemma str_ltb_total : forall a b, a <> b -> str_ltb a b = false -> str_ltb b a = true.
Proof.
  intros a b Hne. unfold str_ltb. rewrite (String.compare_antisym b a).
  destruct (String.compare a b) eqn:E; simpl; try discriminate; [|reflexivity].
  apply String.compare_eq_iff in E. contradiction.
Qed.

Lemma raw_lt_total : forall x y, fst x <> fst y ->
  pair_ltb (raw_pair y) (raw_pair x) = false -> raw_lt x y.
Proof.
  intros [a va] [b vb] Hne. unfold raw_lt, pair_ltb, raw_pair. simpl in *.
  destruct (String.eqb_spec b a) as [->|_]; [contradiction|].
  destruct (String.eqb_spec a b) as [->|_]; [contradiction|].
  rewrite !orb_false_r. apply str_ltb_total. congruence.
Qed.

Lemma insert_sorted_hd : forall y x l,
  HdRel raw_lt y l -> raw_lt y x -> HdRel raw_lt y (insert_sorted raw_pair x l).
Proof.
  intros y x [|z r] Hh Hyx; simpl; [constructor; exact Hyx|].
  destruct (pair_ltb (raw_pair z) (raw_pair x)); constructor; [|exact Hyx].
  inversion Hh; assumption.
Qed.

Lemma insert_sorted_sorted : forall x l,
  Sorted raw_lt l -> ~ In (fst x) (map fst l) -> Sorted raw_lt (insert_sorted raw_pair x l).
Proof.
  intros x l. induction l as [|y r IH]; intros Hs Hx; simpl; [repeat constructor|].
  inversion Hs as [|? ? Hr Hh]; subst.
  destruct (pair_ltb (raw_pair y) (raw_pair x)) eqn:E.
  - constructor.
    + apply IH; [exact Hr|]. intros Hin; apply Hx; right; exact Hin.
    + apply insert_sorted_hd; assumption.
  - constructor; [exact Hs|]. constructor. apply raw_lt_total; [|exact E].
    intros Heq; apply Hx; left; symmetry; exact Heq.
Qed.

Lemma sort_sorted : forall l, NoDup (map fst l) -> Sorted raw_lt (sort raw_pair l).
Proof.
  induction l as [|x r IH]; intros Hn; simpl; [constructor|].
  inversion Hn as [|? ? Hx Hr]; subst.
  apply insert_sorted_sorted; [apply IH, Hr|].
  intros Hin; apply Hx.
  apply (Permutation_in _ (Permutation_map fst (sort_perm raw_pair r))), Hin.
Qed.

(** C1 (counterexample): [run_query] sorts the pairs as they are and quotes
    them afterwards.  With the keys [tags.a:b] and [tags.a0] the POST body
    holds [tags.a0=2] before [tags.a%3Ab=1] ([0] is below [:]), while sorting
    the quoted pairs puts [tags.a%3Ab=1] first ([%] is below [0]). *)
Lemma canonical_order_raw_keys :
  fst (sign_request (fun _ => true) (fun _ _ => "sig") "AK" "SK" "GetComputers"
         [("tags.a:b", WStr "1"); ("tags.a0", WStr "2")]
         "https://landscape.example.com/api/" "2011-08-01" "2024-01-02T03:04:05Z") =
    Ok ("https://landscape.example.com/api/",
        "access_key_id=AK&action=GetComputers&signature_method=HmacSHA256&signature_version=2&tags.a0=2&tags.a%3Ab=1&timestamp=2024-01-02T03%3A04%3A05Z&version=2011-08-01&signature=c2ln",
        "landscape.example.com") /\
  canonical_params_spec
    (snd (sign_request (fun _ => true) (fun _ _ => "sig") "AK" "SK" "GetComputers"
            [("tags.a:b", WStr "1"); ("tags.a0", WStr "2")]
            "https://landscape.example.com/api/" "2011-08-01" "2024-01-02T03:04:05Z")) =
    "access_key_id=AK&action=GetComputers&signature_method=HmacSHA256&signature_version=2&tags.a%3Ab=1&tags.a0=2&timestamp=2024-01-02T03%3A04%3A05Z&version=2011-08-01".
Proof. vm_compute. split; reflexivity. Qed.

(** C1 (amended): when signing succeeds, the entries of the parameter
    dictionary (as [run_query] leaves it) are put in the order of their raw,
    unquoted (key, value) pairs under string order, each key and value is
    then quoted with [~] left unescaped and the pairs joined as [key=value]
    with [&]; the string to sign is the four lines [POST], the signed host,
    the path ([/] when [parse] gives an empty path) and that string, joined
    by LF; the POST body is that string followed by [&signature=] and the
    base64 of the HMAC-SHA256 of the string to sign under the secret key,
    quoted with [/] left unescaped. *)
Theorem sign_request_body : forall nfkc hmac ak sk action p uri version ts uri' body shost,
  NoDup (map fst p) ->
  fst (sign_request nfkc hmac ak sk action p uri version ts) = Ok (uri', body, shost) ->
  let p' := snd (sign_request nfkc hmac ak sk action p uri version ts) in
  exists host port path L,
    parse nfkc uri = Ok (host, port, path) /\
    shost = signed_host host port /\
    L = sort raw_pair p' /\ Permutation L p' /\ Sorted raw_lt L /\
    let sp := join "&" (map encode_pair L) in
    let path' := if String.eqb path "" then "/" else path in
    body = sp ++ "&signature=" ++ quote "/" (b64encode (hmac sk (string_to_sign shost path' sp))) /\
    uri' = (if String.eqb path "" then uri ++ "/" else uri).
Proof.
  intros * Hn H p'.
  assert (Hp' : p' = dict_update (coerce_params p) (fixed_fields ak action ts version))
    by apply sign_request_params.
  unfold sign_request in H. cbv zeta in H. cbn [fst] in H.
  destruct (parse nfkc uri) as [[[host port] path]|e] eqn:Ep; cbn [bind] in H; [|discriminate].
  exists host, port, path, (sort raw_pair p').
  split; [reflexivity|].
  unfold encode_ascii in H.
  destruct (is_ascii_str (to_list sk)); cbn [bind] in H; [|destruct (String.eqb path ""); discriminate].
  destruct (String.eqb path "") eqn:Epath; cbn [bind] in H;
    match type of H with
    | context [is_ascii_str ?m] => destruct (is_ascii_str m)
    end; cbn [bind] in H; try discriminate;
    injection H as <- <- <-;
    (split; [reflexivity|]); (split; [reflexivity|]);
    (split; [apply sort_perm|]);
    (split; [apply sort_sorted; rewrite Hp'; apply params_after_nodup; exact Hn|]);
    split; reflexivity.
Qed.

Lemma sign_request_body_witness :
  NoDup (map fst [("id", WStr "1")]) /\
  fst (sign_request (fun _ => true) (fun _ _ => "sig") "AK" "SK" "GetComputers"
         [("id", WStr "1")] "https://landscape.example.com/api" "2011-08-01" "2024-01-02T03:04:05Z") =
    Ok ("https://landscape.example.com/api",
        "access_key_id=AK&action=GetComputers&id=1&signature_method=HmacSHA256&signature_version=2&timestamp=2024-01-02T03%3A04%3A05Z&version=2011-08-01&signature=c2ln",
        "landscape.example.com") /\
  let p' := snd (sign_request (fun _ => true) (fun _ _ => "sig") "AK" "SK" "GetComputers"
         [("id", WStr "1")] "https://landscape.example.com/api" "2011-08-01" "2024-01-02T03:04:05Z") in
  exists host port path L,
    parse (fun _ => true) "https://landscape.example.com/api" = Ok (host, port, path) /\
    "landscape.example.com" = signed_host host port /\
    L = sort raw_pair p' /\ Permutation L p' /\ Sorted raw_lt L /\
    let sp := join "&" (map encode_pair L) in
    let path' := if String.eqb path "" then "/" else path in
    "access_key_id=AK&action=GetComputers&id=1&signature_method=HmacSHA256&signature_version=2&timestamp=2024-01-02T03%3A04%3A05Z&version=2011-08-01&signature=c2ln" =
      sp ++ "&signature=" ++ quote "/" (b64encode ((fun _ _ => "sig") "SK" (string_to_sign "landscape.example.com" path' sp))) /\
    "https://landscape.example.com/api" =
      (if String.eqb path "" then "https://landscape.example.com/api" ++ "/" else "https://landscape.example.com/api").
Proof.
  assert (H : NoDup (map fst [("id", WStr "1")])).
  { cbn [map fst]. repeat constructor; cbn [In]; intuition discriminate. }
  assert (E : fst (sign_request (fun _ => true) (fun _ _ => "sig") "AK" "SK" "GetComputers"
         [("id", WStr "1")] "https://landscape.example.com/api" "2011-08-01" "2024-01-02T03:04:05Z") =
    Ok ("https://landscape.example.com/api",
        "access_key_id=AK&action=GetComputers&id=1&signature_method=HmacSHA256&signature_version=2&timestamp=2024-01-02T03%3A04%3A05Z&version=2011-08-01&signature=c2ln",
        "landscape.example.com")) by (vm_compute; reflexivity).
  split; [exact H|]. split; [exact E|].
  exact (sign_request_body _ _ _ _ _ _ _ _ _ _ _ _ H E).
Defined.

(* ------------------------------------------------------------------ *)
(** ** [parse] on a URI whose port is not a number *)

Lemma of_to_list : forall s, of_list (to_list s) = s.
Proof. induction s as [|c r IH]; simpl; [reflexivity|rewrite IH; reflexivity]. Qed.

Lemma mem_false : forall d l, (forall c, In c l -> c <> d) -> mem d l = false.
Proof.
  intros d l H. unfold mem. apply not_true_iff_false. rewrite existsb_exists.
  intros [c [Hin He]]. apply Ascii.eqb_eq in He. apply (H c Hin). symmetry; exact He.
Qed.

Lemma mem_true_in : forall d l, mem d l = true -> In d l.
Proof.
  intros d l H. unfold mem in H. apply existsb_exists in H as [c [Hin He]].
  apply Ascii.eqb_eq in He. subst. exact Hin.
Qed.

Lemma find_char_app : forall c l1 l2, mem c l1 = false ->
  find_char c (l1 ++ l2)%list = option_map (Nat.add (List.length l1)) (find_char c l2).
Proof.
  intros c l1 l2. induction l1 as [|x r IH]; intros H; simpl.
  - destruct (find_char c l2); reflexivity.
  - unfold mem in H. simpl in H. apply orb_false_iff in H as [Hx Hr].
    rewrite Ascii.eqb_sym, Hx. rewrite IH by exact Hr.
    destruct (find_char c l2); reflexivity.
Qed.

Lemma lstrip_id : forall l, (forall c, In c l -> is_space c = false) -> lstrip l = l.
Proof.
  intros [|c r] H; simpl; [reflexivity|]. rewrite (H c (or_introl eq_refl)). reflexivity.
Qed.

Lemma strip_id : forall s, (forall c, In c (to_list s) -> is_space c = false) -> strip s = s.
Proof.
  intros s H. unfold strip. rewrite (lstrip_id (to_list s)) by exact H.
  rewrite lstrip_id; [rewrite rev_involutive; apply of_to_list|].
  intros c Hc. apply H, in_rev, Hc.
Qed.

Lemma scheme_char : forall c, is_lower (lower_char c) = true ->
  mem c scheme_chars = true /\ url_char_ok c = true /\ Ascii.eqb c ":"%char = false.
Proof. intros [[] [] [] [] [] [] [] []]; vm_compute; intros H; try discriminate H; auto. Qed.

Lemma firstn_app_len : forall (a b : list ascii), firstn (List.length a) (a ++ b) = a.
Proof. induction a as [|x r IH]; intros b; simpl; [reflexivity|rewrite IH; reflexivity]. Qed.

Lemma skipn_app_len : forall (a b : list ascii), skipn (List.length a) (a ++ b) = b.
Proof. induction a as [|x r IH]; intros b; simpl; [reflexivity|apply IH]. Qed.

Lemma split_on_nomem : forall c s, mem c (to_list s) = false -> split_on c s = [s].
Proof.
  intros c s. induction s as [|x r IH]; intros H; simpl; [reflexivity|].
  unfold mem in H. simpl in H. apply orb_false_iff in H as [Hx Hr].
  rewrite Ascii.eqb_sym, Hx. rewrite IH by exact Hr. reflexivity.
Qed.

Lemma split_on_app : forall c a b, mem c (to_list a) = false ->
  split_on c (a ++ String c b) = a :: split_on c b.
Proof.
  intros c a b. induction a as [|x r IH]; intros H; simpl.
  - rewrite Ascii.eqb_refl. reflexivity.
  - unfold mem in H. simpl in H. apply orb_false_iff in H as [Hx Hr].
    rewrite Ascii.eqb_sym, Hx. rewrite IH by exact Hr. reflexivity.
Qed.

Lemma lower_app : forall s t, lower (s ++ t) = lower s ++ lower t.
Proof. induction s as [|c r IH]; intros t; simpl; [reflexivity|rewrite IH; reflexivity]. Qed.

Lemma forallb_in : forall (f : ascii -> bool) l c, forallb f l = true -> In c l -> f c = true.
Proof. intros f l c H Hin. rewrite forallb_forall in H. apply H, Hin. Qed.

Lemma netloc_chars : forall l, forallb netloc_char_ok l = true ->
  forall c, In c l -> url_char_ok c = true /\ mem c (to_list ":/?#[]") = false.
Proof.
  intros l H c Hin. pose proof (forallb_in _ _ _ H Hin) as Hc.
  unfold netloc_char_ok in Hc. apply andb_true_iff in Hc as [H1 H2].
  split; [exact H1|]. apply negb_true_iff, H2.
Qed.

Lemma not_in_of_mem : forall d c l, mem c l = false -> In d l -> d <> c.
Proof.
  intros d c l H Hin ->. unfold mem in H.
  assert (existsb (Ascii.eqb c) l = true) by (apply existsb_exists; exists c; split;
    [exact Hin|apply Ascii.eqb_refl]).
  congruence.
Qed.

(** The netloc [host:port] holds none of [/?#[]]. *)
Lemma netloc_mem : forall host port d,
  forallb netloc_char_ok (to_list host) = true ->
  forallb netloc_char_ok (to_list port) = true ->
  mem d (to_list "/?#[]") = true ->
  mem d (to_list (host ++ ":" ++ port)) = false.
Proof.
  intros host port d Hh Hp Hd. apply mem_false. intros c Hin ->.
  rewrite to_list_app in Hin. simpl in Hin. apply in_app_or in Hin as [Hin|[Hc|Hin]].
  - destruct (netloc_chars _ Hh _ Hin) as [_ Hm].
    apply (not_in_of_mem d d (to_list ":/?#[]") Hm); [|reflexivity].
    apply mem_true_in in Hd. simpl in Hd |- *. tauto.
  - subst. vm_compute in Hd. discriminate.
  - destruct (netloc_chars _ Hp _ Hin) as [_ Hm].
    apply (not_in_of_mem d d (to_list ":/?#[]") Hm); [|reflexivity].
    apply mem_true_in in Hd. simpl in Hd |- *. tauto.
Qed.

Lemma splitnetloc_ok : forall N R,
  mem "/"%char N = false -> mem "?"%char N = false -> mem "#"%char N = false ->
  (match R with [] => true | c :: _ => mem c (to_list "/?#") end) = true ->
  splitnetloc ("/"%char :: "/"%char :: N ++ R)%list = (N, R).
Proof.
  intros N R H1 H2 H3 HR. unfold splitnetloc. cbn [skipn to_list fold_left].
  rewrite !find_char_app by assumption.
  match goal with
  | |- (firstn ?d _, skipn ?d _) = _ =>
      assert (E : d = List.length N); [|rewrite E, firstn_app_len, skipn_app_len; reflexivity]
  end.
  rewrite length_app.
  destruct R as [|x R']; simpl.
  - lia.
  - apply mem_true_in in HR. simpl in HR.
    destruct HR as [<-|[<-|[<-|[]]]]; cbn;
      destruct (find_char "/"%char R'); destruct (find_char "?"%char R');
      destruct (find_char "#"%char R'); cbn; lia.
Qed.

Lemma skipn_app_len_S : forall (a b : list ascii) c, skipn (S (List.length a)) (a ++ c :: b) = b.
Proof. induction a as [|x r IH]; intros b c; simpl; [reflexivity|apply IH]. Qed.

Lemma find_char_head : forall c l, find_char c (c :: l) = Some 0.
Proof. intros c l. simpl. rewrite Ascii.eqb_refl. reflexivity. Qed.

Lemma prefix_slashes : forall l,
  String.prefix "//" (of_list ("/"%char :: "/"%char :: l)) = true.
Proof. intros l. simpl. destruct (of_list l); reflexivity. Qed.

Lemma urlsplit_netloc : forall nfkc S N R,
  S <> [] ->
  forallb (fun c => mem c scheme_chars) S = true ->
  mem ":"%char S = false ->
  mem "/"%char N = false -> mem "?"%char N = false -> mem "#"%char N = false ->
  mem "["%char N = false -> mem "]"%char N = false ->
  is_ascii_str N = true ->
  (match R with [] => true | c :: _ => mem c (to_list "/?#") end) = true ->
  exists sc p q f,
    urlsplit nfkc (of_list (S ++ ":"%char :: "/"%char :: "/"%char :: N ++ R)) =
    Ok (sc, of_list N, p, q, f).
Proof.
  intros nfkc S N R HS Hsc Hcolon H1 H2 H3 H4 H5 Ha HR.
  unfold urlsplit. rewrite to_list_of_list, find_char_app by exact Hcolon.
  rewrite find_char_head. cbn [option_map]. rewrite Nat.add_0_r.
  destruct (List.length S) as [|k] eqn:EL; [destruct S; [congruence|discriminate]|].
  cbv beta iota zeta. rewrite <- EL.
  rewrite firstn_app_len, skipn_app_len_S, Hsc.
  cbn [forallb is_digit andb negb].
  replace (is_digit "/"%char) with false by reflexivity. cbn [andb negb].
  destruct (String.eqb (of_list S) "http");
  unfold split_rest; rewrite prefix_slashes;
  rewrite splitnetloc_ok by assumption;
  rewrite H4, H5; cbn [andb orb negb];
  (destruct (if mem "#"%char R then split1 "#"%char R else (R, [])) as [r1 f]);
  (destruct (if mem "?"%char r1 then split1 "?"%char r1 else (r1, [])) as [r2 q]);
  rewrite Ha; cbn [orb bind]; do 4 eexists; reflexivity.
Qed.

Lemma url_path_netloc : forall nfkc u N,
  (exists sc p q f, urlsplit nfkc u = Ok (sc, of_list N, p, q, f)) ->
  exists path, url_path nfkc u = Ok (of_list N, path).
Proof.
  intros nfkc u N [sc [p [q [f E]]]]. unfold url_path. rewrite E. cbn [bind].
  destruct (if existsb (String.eqb sc) uses_params && mem ";"%char (to_list p)
            then let '(a, b) := splitparams (to_list p) in (of_list a, of_list b)
            else (p, "")) as [p1 prm].
  eexists. reflexivity.
Qed.

Lemma url_char_space : forall c, url_char_ok c = true -> is_space c = false.
Proof.
  intros c H. unfold url_char_ok in H. apply andb_true_iff in H as [_ H].
  apply negb_true_iff, H.
Qed.

Lemma scheme_lower : forall sch c,
  (lower sch = "http" \/ lower sch = "https") -> In c (to_list sch) ->
  is_lower (lower_char c) = true.
Proof.
  intros sch c Hs Hin.
  assert (Hm : In (lower_char c) (to_list (lower sch)))
    by (rewrite to_list_lower; apply in_map, Hin).
  destruct Hs as [E|E]; rewrite E in Hm; simpl in Hm;
    repeat (destruct Hm as [Hm|Hm]; [rewrite <- Hm; reflexivity|]); contradiction.
Qed.

Lemma netloc_ascii : forall host port,
  forallb netloc_char_ok (to_list host) = true ->
  forallb netloc_char_ok (to_list port) = true ->
  is_ascii_str (to_list (host ++ ":" ++ port)) = true.
Proof.
  intros host port Hh Hp. unfold is_ascii_str. apply forallb_forall. intros c Hin.
  rewrite to_list_app in Hin. simpl in Hin. apply in_app_or in Hin as [Hin|[<-|Hin]].
  - destruct (netloc_chars _ Hh _ Hin) as [Hc _].
    unfold url_char_ok in Hc. apply andb_true_iff in Hc as [Hc _]. exact Hc.
  - reflexivity.
  - destruct (netloc_chars _ Hp _ Hin) as [Hc _].
    unfold url_char_ok in Hc. apply andb_true_iff in Hc as [Hc _]. exact Hc.
Qed.

Lemma netloc_no_colon : forall s,
  forallb netloc_char_ok (to_list s) = true -> mem ":"%char (to_list s) = false.
Proof.
  intros s H. apply mem_false. intros c Hin ->.
  destruct (netloc_chars _ H _ Hin) as [_ Hm]. vm_compute in Hm. discriminate.
Qed.

Lemma string_app_assoc : forall a b c, a ++ b ++ c = (a ++ b) ++ c.
Proof. induction a as [|x r IH]; intros b c; simpl; [reflexivity|rewrite IH; reflexivity]. Qed.

(** C10 (counterexample): a URI with a single [:] in its authority and a
    port that is no number may still make [parse] raise ([ValueError] for an
    unbalanced [[]), and with user information the part returned as host is
    the user name, not the host name. *)
Lemma parse_nonnumeric_port_fails :
  parse (fun _ => true) "http://[a:b/" = Err (ValueError "Invalid IPv6 URL") /\
  parse (fun _ => true) "http://user:pw@host/api" = Ok ("user", None, "/api").
Proof. split; vm_compute; reflexivity. Qed.

(** C10 (amended): for a URI [scheme://host:port rest] whose scheme is
    [http] or [https] in any case, whose host and port are ASCII text with
    no [:], [/], [?], [#], [[], []] or whitespace, whose rest is empty or
    starts with [/], [?] or [#] and holds ASCII text without whitespace, and
    whose port is not read by [int], [parse] raises nothing and returns the
    host, port [None] and some path; the signed host is then the host alone. *)
Theorem parse_nonnumeric_port : forall nfkc sch host port rest,
  (lower sch = "http" \/ lower sch = "https") ->
  forallb netloc_char_ok (to_list host) = true ->
  forallb netloc_char_ok (to_list port) = true ->
  rest_ok rest = true ->
  py_int port = None ->
  exists path,
    parse nfkc (sch ++ "://" ++ host ++ ":" ++ port ++ rest) = Ok (host, None, path) /\
    signed_host host None = host.
Proof.
  intros nfkc sch host port rest Hs Hh Hp Hr Hpi.
  unfold rest_ok in Hr. apply andb_true_iff in Hr as [Hr0 Hr1].
  set (N := to_list (host ++ ":" ++ port)).
  assert (Hurl : sch ++ "://" ++ host ++ ":" ++ port ++ rest =
                 of_list (to_list sch ++ ":"%char :: "/"%char :: "/"%char :: N ++ to_list rest)%list).
  { rewrite <- (of_to_list (sch ++ "://" ++ host ++ ":" ++ port ++ rest)). f_equal.
    unfold N. rewrite !to_list_app. simpl. rewrite ?to_list_app. simpl.
    rewrite <- ?app_assoc. reflexivity. }
  assert (Hpre : (String.prefix "http://" (lower (sch ++ "://" ++ host ++ ":" ++ port ++ rest)) ||
                  String.prefix "https://" (lower (sch ++ "://" ++ host ++ ":" ++ port ++ rest)))
                 = true).
  { rewrite lower_app, (lower_app "://"). change (lower "://") with "://".
    rewrite string_app_assoc.
    destruct Hs as [E|E]; rewrite E.
    - exact (f_equal (fun b => b || _) (prefix_app "http://" _)).
    - apply orb_true_iff. right. exact (prefix_app "https://" _). }
  assert (Hsch : forall c, In c (to_list sch) ->
            mem c scheme_chars = true /\ url_char_ok c = true /\ Ascii.eqb c ":"%char = false)
    by (intros c Hin; apply scheme_char, (scheme_lower sch c Hs Hin)).
  assert (HN : forall c, In c N -> url_char_ok c = true).
  { unfold N. intros c Hin. rewrite to_list_app in Hin. simpl in Hin.
    apply in_app_or in Hin as [Hin|[<-|Hin]];
      [apply (netloc_chars _ Hh _ Hin)|reflexivity|apply (netloc_chars _ Hp _ Hin)]. }
  unfold parse. cbv zeta. rewrite Hpre. cbn [negb].
  rewrite strip_id.
  2:{ rewrite Hurl, to_list_of_list. intros c Hin. apply url_char_space.
      apply in_app_or in Hin as [Hin|Hin]; [apply (Hsch c Hin)|].
      simpl in Hin. destruct Hin as [<-|[<-|[<-|Hin]]]; try reflexivity.
      apply in_app_or in Hin as [Hin|Hin]; [apply HN, Hin|].
      apply (forallb_in _ _ _ Hr1 Hin). }
  destruct (url_path_netloc nfkc (sch ++ "://" ++ host ++ ":" ++ port ++ rest) N) as [path Hup].
  { rewrite Hurl. apply urlsplit_netloc.
    - destruct (to_list sch) eqn:E; [|discriminate].
      destruct sch; [|discriminate]. destruct Hs as [Hs|Hs]; discriminate Hs.
    - apply forallb_forall. intros c Hin. apply (Hsch c Hin).
    - apply mem_false. intros c Hin ->. destruct (Hsch _ Hin) as [_ [_ Hc]]. discriminate Hc.
    - apply netloc_mem; [exact Hh|exact Hp|reflexivity].
    - apply netloc_mem; [exact Hh|exact Hp|reflexivity].
    - apply netloc_mem; [exact Hh|exact Hp|reflexivity].
    - apply netloc_mem; [exact Hh|exact Hp|reflexivity].
    - apply netloc_mem; [exact Hh|exact Hp|reflexivity].
    - apply netloc_ascii; assumption.
    - exact Hr0. }
  rewrite Hup. cbn [bind]. unfold N. rewrite of_to_list.
  replace (mem ":"%char (to_list (host ++ ":" ++ port))) with true.
  2:{ symmetry. unfold mem. rewrite to_list_app, existsb_app. simpl.
      rewrite ?Ascii.eqb_refl, ?orb_true_r. reflexivity. }
  change (":" ++ port) with (String ":"%char port).
  rewrite split_on_app by (apply netloc_no_colon, Hh).
  rewrite split_on_nomem by (apply netloc_no_colon, Hp).
  rewrite Hpi. exists path. split; reflexivity.
Qed.

Lemma parse_nonnumeric_port_witness :
  (lower "HTTPS" = "http" \/ lower "HTTPS" = "https") /\
  forallb netloc_char_ok (to_list "landscape.example.com") = true /\
  forallb netloc_char_ok (to_list "api") = true /\
  rest_ok "/api/" = true /\
  py_int "api" = None /\
  exists path,
    parse (fun _ => true) ("HTTPS" ++ "://" ++ "landscape.example.com" ++ ":" ++ "api" ++ "/api/") =
      Ok ("landscape.example.com", None, path) /\
    signed_host "landscape.example.com" None = "landscape.example.com".
Proof.
  assert (H1 : lower "HTTPS" = "http" \/ lower "HTTPS" = "https") by (right; reflexivity).
  assert (H2 : forallb netloc_char_ok (to_list "landscape.example.com") = true) by reflexivity.
  assert (H3 : forallb netloc_char_ok (to_list "api") = true) by reflexivity.
  assert (H4 : rest_ok "/api/" = true) by reflexivity.
  assert (H5 : py_int "api" = None) by reflexivity.
  split; [exact H1|]. split; [exact H2|]. split; [exact H3|]. split; [exact H4|].
  split; [exact H5|].
  exact (parse_nonnumeric_port (fun _ => true) "HTTPS" "landscape.example.com" "api" "/api/"
           H1 H2 H3 H4 H5).
Defined.

Lemma string_app_nil : forall s, s ++ "" = s.
Proof. induction s as [|c r IH]; simpl; [reflexivity|rewrite IH; reflexivity]. Qed.

Lemma string_app_nonempty : forall s c r, String.eqb (s ++ String c r) "" = false.
Proof. intros [|x s] c r; reflexivity. Qed.

Lemma csv_escaped_item : forall u rest acc,
  has_char "\"%char u = false ->
  csv_go (to_list (escape_csv_item u) ++ rest)%list acc false = csv_go rest (acc ++ u) false.
Proof.
  induction u as [|c r IH]; intros rest acc H.
  - simpl. rewrite string_app_nil. reflexivity.
  - unfold has_char in H. cbn [to_list existsb] in H. apply orb_false_iff in H as [Hc Hr].
    cbn [escape_csv_item]. destruct (Ascii.eqb c ","%char) eqn:Ec.
    + apply Ascii.eqb_eq in Ec. subst c. cbn [to_list app csv_go]. simpl (Ascii.eqb _ _).
      cbn [negb].
      rewrite IH by exact Hr. rewrite <- string_app_assoc. reflexivity.
    + cbn [to_list app csv_go]. rewrite Ec. rewrite Ascii.eqb_sym, Hc.
      rewrite IH by exact Hr. rewrite <- string_app_assoc. reflexivity.
Qed.

Lemma csv_join_escaped : forall items,
  Forall (fun u => has_char "\"%char u = false) items ->
  parse_csv_list_safely (join "," (map escape_csv_item items)) =
  if String.eqb (last items "") "" then removelast items else items.
Proof.
  unfold parse_csv_list_safely.
  induction items as [|u [|v r] IH]; intros H.
  - reflexivity.
  - inversion H; subst. simpl join. rewrite <- (app_nil_r (to_list (escape_csv_item u))).
    rewrite csv_escaped_item by assumption. simpl. destruct (String.eqb u ""); reflexivity.
  - inversion H; subst.
    change (join "," (map escape_csv_item (u :: v :: r)))
      with (escape_csv_item u ++ "," ++ join "," (map escape_csv_item (v :: r))).
    rewrite to_list_app, csv_escaped_item by assumption. cbn [append to_list app csv_go].
    rewrite Ascii.eqb_refl. cbv beta iota.
    rewrite IH by assumption.
    change (last (u :: v :: r) "") with (last (v :: r) "").
    change (removelast (u :: v :: r)) with (u :: removelast (v :: r)).
    destruct (String.eqb (last (v :: r) "") ""); reflexivity.
Qed.

Lemma escape_csv_item_id : forall s, has_char ","%char s = false -> escape_csv_item s = s.
Proof.
  induction s as [|c r IH]; intros H; [reflexivity|].
  unfold has_char in H. cbn [to_list existsb] in H. apply orb_false_iff in H as [Hc Hr].
  cbn [escape_csv_item]. rewrite Ascii.eqb_sym, Hc. rewrite IH by exact Hr. reflexivity.
Qed.

Lemma csv_after_backslash : forall u acc,
  has_char ","%char u = false -> has_char "\"%char u = false ->
  csv_go (to_list u) acc true =
  [acc ++ String.concat ""
            (map (fun c => if is_utf8_cont c then schar c else "\" ++ schar c) (to_list u))
       ++ "\"].
Proof.
  induction u as [|c r IH]; intros acc H1 H2.
  - cbn [to_list csv_go map String.concat]. rewrite string_app_nonempty.
    reflexivity.
  - unfold has_char in H1, H2. cbn [to_list existsb] in H1, H2.
    apply orb_false_iff in H1 as [Hc1 Hr1]. apply orb_false_iff in H2 as [Hc2 Hr2].
    cbn [to_list csv_go]. rewrite Ascii.eqb_sym, Hc1, Ascii.eqb_sym, Hc2.
    rewrite IH by assumption. cbn [map andb]. f_equal.
    set (g := fun c0 : ascii => if is_utf8_cont c0 then schar c0 else "\" ++ schar c0).
    assert (Hg : (if negb (is_utf8_cont c) then acc ++ "\" else acc) ++ schar c = acc ++ g c).
    { unfold g. destruct (is_utf8_cont c); cbn [negb]; [reflexivity|].
      rewrite <- string_app_assoc. reflexivity. }
    rewrite Hg.
    destruct (map g (to_list r)) as [|x xs] eqn:E.
    + cbn [String.concat]. rewrite <- !string_app_assoc. reflexivity.
    + change (String.concat "" ((if is_utf8_cont c then schar c else "\" ++ schar c) :: x :: xs))
        with (g c ++ "" ++ String.concat "" (x :: xs)).
      rewrite <- !string_app_assoc. reflexivity.
Qed.

Lemma last_map_in : forall {A} (f : A -> string) (l : list A),
  l <> [] -> exists x, In x l /\ last (map f l) "" = f x.
Proof.
  intros A f l. induction l as [|a [|b r] IH]; intros H; [contradiction| |].
  - exists a. split; [left; reflexivity|reflexivity].
  - destruct IH as [x [Hx Hl]]; [discriminate|].
    exists x. split; [right; exact Hx|exact Hl].
Qed.

Lemma partition_eq_app : forall k v,
  has_char "="%char k = false -> partition_eq (to_list (k ++ "=" ++ v)) = Some (k, v).
Proof.
  induction k as [|c r IH]; intros v H.
  - cbn [append to_list partition_eq]. rewrite Ascii.eqb_refl, of_to_list. reflexivity.
  - unfold has_char in H. cbn [to_list existsb] in H. apply orb_false_iff in H as [Hc Hr].
    change (to_list (String c r ++ "=" ++ v)) with (c :: to_list (r ++ "=" ++ v)).
    cbn [partition_eq]. rewrite Ascii.eqb_sym, Hc.
    rewrite IH by exact Hr. reflexivity.
Qed.

Lemma partition_eq_some : forall l k v, partition_eq l = Some (k, v) ->
  of_list l = k ++ "=" ++ v /\ has_char "="%char k = false.
Proof.
  induction l as [|c r IH]; intros k v H; [discriminate|].
  cbn [partition_eq] in H. destruct (Ascii.eqb c "="%char) eqn:Ec.
  - injection H as <- <-. apply Ascii.eqb_eq in Ec. subst c. split; reflexivity.
  - destruct (partition_eq r) as [[k' v']|] eqn:Er; [|discriminate].
    injection H as <- <-. destruct (IH k' v' eq_refl) as [E1 E2].
    cbn [of_list]. rewrite E1. split; [reflexivity|].
    unfold has_char in *. cbn [to_list existsb]. rewrite Ascii.eqb_sym, Ec. exact E2.
Qed.

Lemma partition_eq_none : forall l, partition_eq l = None -> existsb (Ascii.eqb "="%char) l = false.
Proof.
  induction l as [|c r IH]; intros H; [reflexivity|].
  cbn [partition_eq] in H. cbn [existsb]. rewrite Ascii.eqb_sym.
  destruct (Ascii.eqb c "="%char); [discriminate|].
  destruct (partition_eq r) as [[k v]|]; [discriminate|]. apply IH. reflexivity.
Qed.

Lemma has_eq_app : forall k v, has_char "="%char (k ++ "=" ++ v) = true.
Proof.
  intros k v. unfold has_char. rewrite to_list_app. apply existsb_exists.
  exists "="%char. split; [apply in_or_app; right; left; reflexivity|apply Ascii.eqb_refl].
Qed.

Lemma parse_csv_mapping_go_outcome : forall items,
  match parse_csv_mapping_go items with
  | Ok pairs =>
      map (fun kv => fst kv ++ "=" ++ snd kv) pairs = items /\
      Forall (fun kv => has_char "="%char (fst kv) = false) pairs
  | Err e =>
      exists pre it post, items = (pre ++ it :: post)%list /\
      Forall (fun x => has_char "="%char x = true) pre /\
      has_char "="%char it = false /\ e = ValueError ("invalid key/value pair " ++ it)
  end.
Proof.
  induction items as [|it r IH]; [split; constructor|].
  cbn [parse_csv_mapping_go]. destruct (partition_eq (to_list it)) as [[k v]|] eqn:Ep.
  - destruct (partition_eq_some _ _ _ Ep) as [E1 E2]. rewrite of_to_list in E1.
    destruct (parse_csv_mapping_go r) as [pairs|e]; cbn [bind].
    + destruct IH as [IH1 IH2]. split.
      * cbn [map fst snd]. rewrite IH1, E1. reflexivity.
      * constructor; assumption.
    + destruct IH as [pre [x [post [H1 [H2 [H3 H4]]]]]].
      exists (it :: pre), x, post. split; [rewrite H1; reflexivity|].
      split; [|split; assumption]. constructor; [|exact H2].
      rewrite E1. apply has_eq_app.
  - exists [], it, r. split; [reflexivity|]. split; [constructor|].
    split; [apply partition_eq_none, Ep|reflexivity].
Qed.

Lemma join_mapping_items : forall pairs,
  Forall (fun kv => has_char "="%char (fst kv) = false /\
                    has_char "\"%char (fst kv) = false /\
                    has_char "\"%char (snd kv) = false) pairs ->
  parse_csv_list_safely
    (join "," (map (fun kv => escape_csv_item (fst kv ++ "=" ++ snd kv)) pairs)) =
  map (fun kv => fst kv ++ "=" ++ snd kv) pairs.
Proof.
  intros pairs H. rewrite <- (map_map (fun kv => fst kv ++ "=" ++ snd kv) escape_csv_item).
  rewrite csv_join_escaped.
  - destruct pairs as [|p ps]; [reflexivity|].
    destruct (last_map_in (fun kv => fst kv ++ "=" ++ snd kv) (p :: ps)) as [x [_ Hx]];
      [discriminate|].
    rewrite Hx. change ("=" ++ snd x) with (String "="%char (snd x)).
    rewrite string_app_nonempty. reflexivity.
  - apply Forall_map. eapply Forall_impl; [|exact H].
    intros [k v] [_ [Hk Hv]]. cbn [fst snd] in *. unfold has_char in *.
    rewrite to_list_app. cbn [append to_list]. rewrite existsb_app. cbn [existsb].
    rewrite Hk, Hv. reflexivity.
Qed.

Lemma parse_csv_mapping_go_items : forall pairs,
  Forall (fun kv => has_char "="%char (fst kv) = false) pairs ->
  parse_csv_mapping_go (map (fun kv => fst kv ++ "=" ++ snd kv) pairs) = Ok pairs.
Proof.
  induction pairs as [|[k v] r IH]; intros H; [reflexivity|].
  inversion H; subst. cbn [map parse_csv_mapping_go fst snd].
  rewrite partition_eq_app by assumption. rewrite IH by assumption. reflexivity.
Qed.


Lemma nat_str_inj : forall a b, nat_str a = nat_str b -> a = b.
Proof.
  intros a b H. unfold nat_str, z_str in H.
  apply (f_equal NilEmpty.int_of_string) in H. rewrite !NilEmpty.isi in H.
  injection H as H. apply DecimalZ.to_int_inj, Nat2Z.inj in H. exact H.
Qed.

Lemma string_app_inj : forall a b c, a ++ b = a ++ c -> b = c.
Proof.
  induction a as [|x r IH]; intros b c H; [exact H|].
  injection H as H. apply IH, H.
Qed.

Lemma encode_raw_string : forall rf n x,
  encode_argument rf (scalar "raw_string") n x = Ok [(n, WStr (py_str x))].
Proof. reflexivity. Qed.

Lemma list_loop_raw : forall rf name vs i acc,
  (forall k, In k (map fst acc) -> exists j, j < i /\ k = name ++ "." ++ nat_str (S j)) ->
  list_loop (encode_argument rf) (scalar "raw_string") name i vs acc =
  Ok (app acc (map (fun iv => (name ++ "." ++ nat_str (S (fst iv)), WStr (py_str (snd iv))))
                 (combine (seq i (List.length vs)) vs))).
Proof.
  intros rf name. induction vs as [|x r IH]; intros i acc H.
  - cbn. rewrite app_nil_r. reflexivity.
  - cbn [list_loop]. rewrite encode_raw_string. cbn [bind].
    unfold dict_update. cbn [fold_left fst snd].
    rewrite dict_set_absent.
    + rewrite IH.
      * cbn [List.length seq combine map fst snd]. rewrite <- app_assoc.
        rewrite Nat.add_1_r. reflexivity.
      * intros k Hk. rewrite map_app in Hk. apply in_app_or in Hk as [Hk|[<-|[]]].
        -- destruct (H k Hk) as [j [Hj ->]]. exists j. split; [lia|reflexivity].
        -- exists i. split; [lia|]. rewrite Nat.add_1_r. reflexivity.
    + intros Hk. destruct (H _ Hk) as [j [Hj E]].
      apply string_app_inj in E. apply (string_app_inj ".") in E.
      rewrite Nat.add_1_r in E. apply nat_str_inj in E. lia.
Qed.

Lemma map_loop_raw : forall rf name d acc,
  NoDup (map fst d) ->
  (forall k, In k (map fst acc) -> exists k', k = name ++ "." ++ k' /\ ~ In k' (map fst d)) ->
  map_loop (encode_argument rf) (scalar "raw_string") (scalar "raw_string") name
    (map (fun kv => (PStr (fst kv), snd kv)) d) acc =
  Ok (app acc (map (fun kv => (name ++ "." ++ fst kv, WStr (py_str (snd kv)))) d)).
Proof.
  intros rf name. induction d as [|[k v] r IH]; intros acc Hn H.
  - cbn. rewrite app_nil_r. reflexivity.
  - inversion Hn as [|? ? Hk Hr]; subst.
    cbn [map map_loop fst snd]. rewrite encode_raw_string. cbn [bind].
    change (dict_get [("<key>", WStr (py_str (PStr k)))] "<key>") with (Some (WStr k)).
    cbv iota. rewrite (encode_raw_string rf). cbn [bind py_str dict_get wval_str].
    unfold dict_update. cbn [fold_left fst snd].
    rewrite dict_set_absent.
    + rewrite IH; [rewrite <- app_assoc; reflexivity|exact Hr|].
      intros k' Hk'. rewrite map_app in Hk'. apply in_app_or in Hk' as [Hk'|[<-|[]]].
      * destruct (H k' Hk') as [k'' [-> Hn'']]. exists k''. split; [reflexivity|].
        intros Hin. apply Hn''. right. exact Hin.
      * exists k. split; [reflexivity|exact Hk].
    + intros Hin. destruct (H _ Hin) as [k' [E Hk']].
      apply string_app_inj in E. apply (string_app_inj ".") in E. subst k'.
      apply Hk'. left; reflexivity.
Qed.

(* ------------------------------------------------------------------ *)
(** ** Round trips of the comma-separated parsers and the encoder *)

(** Joining items with [,] after escaping their commas as [\,] is undone by
    [_parse_csv_list_safely], provided no item holds a backslash: empty items
    in the middle are kept, and only a trailing empty item is lost. *)
Theorem parse_csv_list_escaped_roundtrip : forall items,
  Forall (fun u => has_char "\"%char u = false) items ->
  parse_csv_list_safely (join "," (map escape_csv_item items)) =
  if String.eqb (last items "") "" then removelast items else items.
Proof. exact csv_join_escaped. Qed.

Lemma parse_csv_list_escaped_roundtrip_witness :
  parse_csv_list_safely (join "," (map escape_csv_item ["a,b"; ""; "c"; ""])) = ["a,b"; ""; "c"].
Proof.
  exact (parse_csv_list_escaped_roundtrip ["a,b"; ""; "c"; ""]
           ltac:(repeat constructor)).
Defined.

(** In [_parse_csv_list_safely] a backslash that is not followed by a comma
    sets a flag that only a comma clears: every later character of the item
    gets a backslash in front of it (before its first UTF-8 byte), and one
    more backslash is appended at the end of the item. *)
Theorem parse_csv_list_lone_backslash : forall pre u,
  has_char ","%char pre = false -> has_char "\"%char pre = false ->
  has_char ","%char u = false -> has_char "\"%char u = false ->
  parse_csv_list_safely (pre ++ "\" ++ u) =
  [pre ++ String.concat ""
            (map (fun c => if is_utf8_cont c then schar c else "\" ++ schar c) (to_list u))
       ++ "\"].
Proof.
  intros pre u H1 H2 H3 H4. unfold parse_csv_list_safely.
  rewrite to_list_app, <- (escape_csv_item_id pre H1), csv_escaped_item by exact H2.
  rewrite (escape_csv_item_id pre H1). cbn [append to_list csv_go].
  rewrite csv_after_backslash by assumption. reflexivity.
Qed.

Lemma parse_csv_list_lone_backslash_witness :
  parse_csv_list_safely "C:\dé" = ["C:\d\é\"].
Proof.
  exact (parse_csv_list_lone_backslash "C:" "dé" eq_refl eq_refl eq_refl eq_refl).
Defined.

(** [_parse_csv_mapping_safely] gives back the pairs [k=v] it is given,
    joined by commas with their commas escaped, when no key holds [=] and no
    key or value holds a backslash (a value may hold [=]). *)
Theorem parse_csv_mapping_roundtrip : forall pairs,
  Forall (fun kv => has_char "="%char (fst kv) = false /\
                    has_char "\"%char (fst kv) = false /\
                    has_char "\"%char (snd kv) = false) pairs ->
  parse_csv_mapping_safely
    (join "," (map (fun kv => escape_csv_item (fst kv ++ "=" ++ snd kv)) pairs)) = Ok pairs.
Proof.
  intros pairs H. unfold parse_csv_mapping_safely. rewrite join_mapping_items by exact H.
  apply parse_csv_mapping_go_items. eapply Forall_impl; [|exact H]. intros kv [Hk _]; exact Hk.
Qed.

Lemma parse_csv_mapping_roundtrip_witness :
  parse_csv_mapping_safely
    (join "," (map (fun kv => escape_csv_item (fst kv ++ "=" ++ snd kv))
                   [("a", "1,2"); ("b", "x=y")])) = Ok [("a", "1,2"); ("b", "x=y")].
Proof.
  exact (parse_csv_mapping_roundtrip [("a", "1,2"); ("b", "x=y")]
           ltac:(repeat constructor)).
Defined.

(** [_parse_csv_mapping_safely] either splits every item of the comma list
    at its first [=] (so the key holds no [=]), or fails with [ValueError]
    on the first item that holds no [=], all earlier items holding one. *)
Theorem parse_csv_mapping_outcome : forall s,
  match parse_csv_mapping_safely s with
  | Ok pairs =>
      map (fun kv => fst kv ++ "=" ++ snd kv) pairs = parse_csv_list_safely s /\
      Forall (fun kv => has_char "="%char (fst kv) = false) pairs
  | Err e =>
      exists pre it post, parse_csv_list_safely s = (pre ++ it :: post)%list /\
      Forall (fun x => has_char "="%char x = true) pre /\
      has_char "="%char it = false /\ e = ValueError ("invalid key/value pair " ++ it)
  end.
Proof. intros s. apply parse_csv_mapping_go_outcome. Qed.





(** [_encode_mapping] with required [raw_string] keys and values, given a
    dictionary with string keys, sends each entry as the argument
    [name.key] with [str] of its value, in the order of the dictionary. *)
Theorem encode_mapping_dict : forall rf name d,
  NoDup (map fst d) ->
  encode_argument rf (mapping_of (scalar "raw_string") (scalar "raw_string")) name (PDict d) =
  Ok (map (fun kv => (name ++ "." ++ fst kv, WStr (py_str (snd kv)))) d).
Proof.
  intros rf name d Hn.
  change (encode_argument rf (mapping_of (scalar "raw_string") (scalar "raw_string")) name
            (PDict d))
    with (items <- mapping_items (PDict d) ;;
          map_loop (encode_argument rf) (scalar "raw_string") (scalar "raw_string")
            name items []).
  cbn [mapping_items bind]. rewrite map_loop_raw; [reflexivity|exact Hn|intros k []].
Qed.

Lemma encode_mapping_dict_witness :
  encode_argument no_files (mapping_of (scalar "raw_string") (scalar "raw_string")) "tags"
    (PDict [("os", PStr "linux"); ("n", PInt 2)]) =
  Ok [("tags.os", WStr "linux"); ("tags.n", WStr "2")].
Proof.
  exact (encode_mapping_dict no_files "tags" [("os", PStr "linux"); ("n", PInt 2)]
           ltac:(repeat constructor; simpl; intuition discriminate)).
Defined.

(** [_encode_list] with required [raw_string] items, given a list, sends
    [str] of its [i]-th item (counting from 1) as the argument [name.i], in
    order; an empty list sends nothing. *)
Theorem encode_list_indexed : forall rf name vs,
  encode_argument rf (list_of (scalar "raw_string")) name (PList vs) =
  Ok (map (fun iv => (name ++ "." ++ nat_str (S (fst iv)), WStr (py_str (snd iv))))
          (combine (seq 0 (List.length vs)) vs)).
Proof.
  intros rf name vs.
  change (encode_argument rf (list_of (scalar "raw_string")) name (PList vs))
    with (items <- list_items (PList vs) ;;
          match items, Some (scalar "raw_string") with
          | [], _ => Ok []
          | _, None => Err (KeyError "item")
          | _, Some it => list_loop (encode_argument rf) it name 0 items []
          end).
  cbn [list_items bind]. destruct vs as [|x r]; [reflexivity|].
  rewrite list_loop_raw; [reflexivity|intros k []].
Qed.

(** A [data] parameter is never encoded: unless it is optional and given
    its default, [_encode_data] fails, with the error of [open] when the
    file cannot be read and with [AttributeError] when it can. *)
Theorem encode_data_never_succeeds : forall rf p name v,
  underscores (p_type p) = "data" ->
  p_optional p && py_eq v (p_default p) = false ->
  encode_argument rf p name v =
  match open_read rf v with
  | Ok _ => Err (AttributeError "'bytes' object has no attribute 'encode'")
  | Err e => Err e
  end.
Proof.
  intros rf [ty opt def it k vl fl] name v Hty Hopt. cbn [p_type p_optional p_default] in *.
  cbn [encode_argument p_optional p_default]. rewrite Hopt. cbv zeta. rewrite Hty.
  cbn -[open_read]. unfold encode_data. destruct (open_read rf v); reflexivity.
Qed.

Lemma encode_data_never_succeeds_witness :
  encode_argument (fun _ => Some "abc") (scalar "data") "blob" (PStr "/tmp/x") =
  Err (AttributeError "'bytes' object has no attribute 'encode'").
Proof.
  exact (encode_data_never_succeeds (fun _ => Some "abc") (scalar "data") "blob" (PStr "/tmp/x")
           eq_refl eq_refl).
Defined.

(* ------------------------------------------------------------------ *)
(** ** Lemmas on command-line parsing *)

Lemma parse_raw_string : forall ii fi x,
  parse_argument ii fi (scalar "raw_string") x = COk (CStr x).
Proof. reflexivity. Qed.

Lemma parse_list_loop_raw : forall ii fi items,
  parse_list_loop (parse_argument ii fi (scalar "raw_string")) items = COk (map CStr items).
Proof.
  intros ii fi. induction items as [|x r IH]; [reflexivity|].
  cbn [parse_list_loop]. rewrite parse_raw_string. cbn [cbind]. rewrite IH. reflexivity.
Qed.

Lemma filter_removelast_empty : forall l,
  String.eqb (last l "") "" = true ->
  filter (fun s => negb (String.eqb s "")) (removelast l) =
  filter (fun s => negb (String.eqb s "")) l.
Proof.
  induction l as [|x [|y r] IH]; intros H; [reflexivity| |].
  - cbn in H. apply String.eqb_eq in H. subst x. reflexivity.
  - change (removelast (x :: y :: r)) with (x :: removelast (y :: r)).
    cbn [filter]. rewrite IH by exact H. reflexivity.
Qed.

Lemma parse_list_loop_error : forall f items e,
  parse_list_loop f items = CErr e -> exists x, In x items /\ f x = CErr e.
Proof.
  intros f. induction items as [|x r IH]; intros e H; [discriminate|].
  cbn [parse_list_loop] in H. destruct (f x) as [y|e'] eqn:Ef; cbn [cbind] in H.
  - destruct (parse_list_loop f r) as [ys|e''] eqn:Er; cbn [cbind] in H; [discriminate|].
    injection H as <-. destruct (IH _ eq_refl) as [z [Hz Hf]].
    exists z. split; [right; exact Hz|exact Hf].
  - injection H as <-. exists x. split; [left; reflexivity|exact Ef].
Qed.

Lemma parse_list_loop_first : forall f pre x post e,
  Forall (fun y => exists v, f y = COk v) pre -> f x = CErr e ->
  parse_list_loop f (pre ++ x :: post) = CErr e.
Proof.
  intros f pre x post e Hpre Hx. induction Hpre as [|y r [v Hv] _ IH].
  - cbn [app parse_list_loop]. rewrite Hx. reflexivity.
  - cbn [app parse_list_loop]. rewrite Hv. cbn [cbind]. rewrite IH. reflexivity.
Qed.

Lemma parse_mapping_loop_error : forall fk fv items acc e,
  parse_mapping_loop fk fv items acc = CErr e ->
  (exists x, fk x = CErr e \/ fv x = CErr e) \/ (exists pe, e = PyErr pe).
Proof.
  intros fk fv. induction items as [|it r IH]; intros acc e H; [discriminate|].
  cbn [parse_mapping_loop] in H. destruct (partition_eq (to_list it)) as [[k v]|].
  - destruct (fk k) as [key|e1] eqn:Ek; cbn [cbind] in H.
    + destruct (fv v) as [val|e2] eqn:Ev; cbn [cbind] in H.
      * destruct (hashable key); [exact (IH _ _ H)|].
        right. injection H as <-. eexists; reflexivity.
      * injection H as <-. left. exists v. right. exact Ev.
    + injection H as <-. left. exists k. left. exact Ek.
  - right. injection H as <-. eexists; reflexivity.
Qed.

Lemma parse_guard_error : forall value ty r e,
  parse_guard value ty r = CErr e ->
  e = parse_failure value ty \/ (r = CErr e /\ exists o s c, e = UsageError o s c).
Proof.
  intros value ty [v|[o s c|pe]] e H; cbn [parse_guard] in H; try discriminate.
  - injection H as <-. right. split; [reflexivity|]. exists o, s, c. reflexivity.
  - injection H as <-. left. reflexivity.
Qed.

Lemma parse_argument_error_shape : forall ii fi p value e,
  parse_argument ii fi p value = CErr e ->
  e = PyErr (AttributeError ("parse_" ++ underscores (p_type p))) \/
  exists v ty, e = parse_failure v ty.
Proof.
  intros ii fi. fix IH 1. intros [ty opt def item key vparam fields] value e H.
  cbn [parse_argument p_type] in *. cbv zeta in H.
  assert (G : forall r, (forall e', r = CErr e' ->
                 forall o s c, e' = UsageError o s c -> exists v ty', e' = parse_failure v ty') ->
              parse_guard value ty r = CErr e -> exists v ty', e = parse_failure v ty').
  { intros r Hr Hg. destruct (parse_guard_error _ _ _ _ Hg) as [->|[Er [o [s [c Eu]]]]].
    - exists value, ty. reflexivity.
    - exact (Hr e Er o s c Eu). }
  destruct (existsb _ _); [discriminate|].
  destruct (String.eqb (underscores ty) "integer").
  { right. refine (G _ _ H). intros e' Er o s c ->.
    destruct (ii value); discriminate. }
  destruct (String.eqb (underscores ty) "float").
  { right. refine (G _ _ H). intros e' Er o s c ->.
    destruct (fi value); discriminate. }
  destruct (String.eqb (underscores ty) "boolean"); [discriminate|].
  destruct (String.eqb (underscores ty) "list").
  { right. refine (G _ _ H). intros e' Er o s c Eu.
    destruct (filter _ _) as [|x xs] eqn:Ef; [discriminate|].
    destruct item as [it|]; [|subst e'; discriminate].
    destruct (parse_list_loop (parse_argument ii fi it) (x :: xs)) as [l|e''] eqn:El;
      cbn [cbind] in Er; [discriminate|]. injection Er as ->.
    destruct (parse_list_loop_error _ _ _ El) as [y [_ Hy]].
    destruct (IH it y _ Hy) as [Ea|Ep]; [subst; discriminate|exact Ep]. }
  destruct (String.eqb (underscores ty) "mapping").
  { right. refine (G _ _ H). intros e' Er o s c Eu.
    destruct key as [kp|]; [|subst e'; discriminate].
    destruct vparam as [vp|]; [|subst e'; discriminate].
    destruct (parse_mapping_loop _ _ _ _) as [m|e''] eqn:Em; cbn [cbind] in Er;
      [discriminate|]. injection Er as ->.
    destruct (parse_mapping_loop_error _ _ _ _ _ Em) as [[y [Hy|Hy]]|[pe Hp]].
    - destruct (IH kp y _ Hy) as [Ea|Ep]; [subst; discriminate|exact Ep].
    - destruct (IH vp y _ Hy) as [Ea|Ep]; [subst; discriminate|exact Ep].
    - subst; discriminate. }
  destruct (String.eqb (underscores ty) "argument").
  { right. refine (G _ _ H). intros e' Er o s c ->. discriminate. }
  left. injection H as <-. reflexivity.
Qed.

Lemma app_cons_eq_snoc : forall {A} (pre post l : list A) x y,
  (pre ++ x :: post = l ++ [y])%list <->
  (post = [] /\ pre = l /\ x = y) \/
  (exists post', post = (post' ++ [y])%list /\ l = (pre ++ x :: post')%list).
Proof.
  intros A pre post l x y. split.
  - intros H. destruct post as [|z r] using rev_ind.
    + left. apply app_inj_tail in H as [-> ->]. split; [reflexivity|split; reflexivity].
    + right. clear IHr. rewrite app_comm_cons, app_assoc in H.
      apply app_inj_tail in H as [H ->]. exists r. split; [reflexivity|].
      symmetry. exact H.
  - intros [[-> [-> ->]]|[post' [-> ->]]]; [reflexivity|].
    rewrite <- app_assoc. reflexivity.
Qed.

Lemma fold_dict_set_get : forall {A} (pairs acc : list (string * A)) k v,
  dict_get (fold_left (fun d kv => dict_set d (fst kv) (snd kv)) pairs acc) k = Some v <->
  (exists pre post, pairs = (pre ++ (k, v) :: post)%list /\ ~ In k (map fst post)) \/
  (dict_get acc k = Some v /\ ~ In k (map fst pairs)).
Proof.
  intros A pairs acc k v. induction pairs as [|[k0 v0] ps IH] using rev_ind.
  - cbn [fold_left map]. split.
    + intros H. right. split; [exact H|intros []].
    + intros [[pre [post [H _]]]|[H _]]; [destruct pre; discriminate|exact H].
  - rewrite fold_left_app. cbn [fold_left fst snd]. rewrite dict_get_set.
    rewrite map_app. cbn [map fst].
    destruct (String.eqb_spec k k0) as [->|Hne].
    + split.
      * intros E. injection E as <-. left. exists ps, []. split; [reflexivity|intros []].
      * intros [[pre [post [E Hn]]]|[_ Hn]].
        -- symmetry in E. apply app_cons_eq_snoc in E as [[-> [-> E]]|[post' [-> _]]].
           ++ injection E as ->. reflexivity.
           ++ exfalso. apply Hn. rewrite map_app. apply in_or_app. right. left. reflexivity.
        -- exfalso. apply Hn. apply in_or_app. right. left. reflexivity.
    + rewrite IH. split.
      * intros [[pre [post [E Hn]]]|[Ha Hn]].
        -- left. exists pre, (post ++ [(k0, v0)])%list. split.
           ++ rewrite E, <- app_assoc. reflexivity.
           ++ rewrite map_app. cbn [map fst]. intros Hin. apply in_app_or in Hin as [Hin|[E'|[]]];
                [exact (Hn Hin)|exact (Hne (eq_sym E'))].
        -- right. split; [exact Ha|]. intros Hin. apply in_app_or in Hin as [Hin|[E'|[]]];
             [exact (Hn Hin)|exact (Hne (eq_sym E'))].
      * intros [[pre [post [E Hn]]]|[Ha Hn]].
        -- symmetry in E. apply app_cons_eq_snoc in E as [[-> [-> E]]|[post' [-> ->]]].
           ++ injection E as E _. contradiction.
           ++ left. exists pre, post'. split; [reflexivity|].
              intros Hin. apply Hn. rewrite map_app. apply in_or_app. left. exact Hin.
        -- right. split; [exact Ha|]. intros Hin. apply Hn. apply in_or_app. left. exact Hin.
Qed.

Lemma fold_dict_set_nodup : forall {A} (pairs acc : list (string * A)), NoDup (map fst acc) ->
  NoDup (map fst (fold_left (fun d kv => dict_set d (fst kv) (snd kv)) pairs acc)).
Proof.
  intros A. induction pairs as [|kv r IH]; intros acc H; [exact H|].
  cbn [fold_left]. apply IH, dict_set_nodup, H.
Qed.


Lemma cdict_set_str : forall d k v,
  cdict_set (map cpair d) (CStr k) (CStr v) = map cpair (dict_set d k v).
Proof.
  induction d as [|[k0 v0] r IH]; intros k v; [reflexivity|].
  cbn [map cdict_set dict_set cpair fst snd cval_key_eq]. rewrite String.eqb_sym.
  destruct (String.eqb k k0); [reflexivity|]. cbn [map]. rewrite IH. reflexivity.
Qed.

Lemma parse_mapping_loop_raw : forall ii fi pairs acc,
  Forall (fun kv => has_char "="%char (fst kv) = false) pairs ->
  parse_mapping_loop (parse_argument ii fi (scalar "raw_string"))
    (parse_argument ii fi (scalar "raw_string"))
    (map (fun kv => fst kv ++ "=" ++ snd kv) pairs) (map cpair acc) =
  COk (map cpair (fold_left (fun d kv => dict_set d (fst kv) (snd kv)) pairs acc)).
Proof.
  intros ii fi. induction pairs as [|[k v] r IH]; intros acc H; [reflexivity|].
  inversion H; subst. cbn [map parse_mapping_loop fst snd].
  rewrite partition_eq_app by assumption. rewrite !parse_raw_string. cbn [cbind hashable].
  rewrite cdict_set_str, IH by assumption. reflexivity.
Qed.

Lemma split_once_list : forall l,
  match find_char "="%char l with
  | Some i => [of_list (firstn i l); of_list (skipn (S i) l)]
  | None => [of_list l]
  end =
  match partition_eq l with Some (k, v) => [k; v] | None => [of_list l] end.
Proof.
  induction l as [|c r IH]; [reflexivity|].
  cbn [find_char partition_eq]. destruct (Ascii.eqb c "="%char) eqn:Ec; [reflexivity|].
  destruct (find_char "="%char r) as [i|]; destruct (partition_eq r) as [[k v]|];
    cbn [option_map firstn skipn of_list]; try discriminate IH.
  - injection IH as -> ->. reflexivity.
  - reflexivity.
Qed.

Lemma split_once_partition : forall s,
  split_once "="%char s =
  match partition_eq (to_list s) with Some (k, v) => [k; v] | None => [s] end.
Proof.
  intros s. unfold split_once. cbv zeta. pose proof (split_once_list (to_list s)) as E.
  rewrite of_to_list in E. exact E.
Qed.

Lemma call_arbitrary_arguments_go : forall argument acc,
  match call_arbitrary_arguments argument acc with
  | Ok d =>
      exists pairs, map (fun kv => fst kv ++ "=" ++ snd kv) pairs = argument /\
      Forall (fun kv => has_char "="%char (fst kv) = false) pairs /\
      d = fold_left (fun d kv => dict_set d (fst kv) (snd kv)) pairs acc
  | Err e =>
      exists pre a post, argument = (pre ++ a :: post)%list /\
      Forall (fun x => has_char "="%char x = true) pre /\
      has_char "="%char a = false /\
      e = ValueError "not enough values to unpack (expected 2, got 1)"
  end.
Proof.
  induction argument as [|a r IH]; intros acc.
  - exists []. split; [reflexivity|split; [constructor|reflexivity]].
  - cbn [call_arbitrary_arguments]. rewrite split_once_partition.
    destruct (partition_eq (to_list a)) as [[k v]|] eqn:Ep.
    + destruct (partition_eq_some _ _ _ Ep) as [E1 E2]. rewrite of_to_list in E1.
      specialize (IH (dict_set acc k v)).
      destruct (call_arbitrary_arguments r (dict_set acc k v)) as [d|e].
      * destruct IH as [pairs [H1 [H2 H3]]]. exists ((k, v) :: pairs).
        split; [cbn [map fst snd]; rewrite H1, E1; reflexivity|].
        split; [constructor; assumption|exact H3].
      * destruct IH as [pre [x [post [H1 [H2 [H3 H4]]]]]].
        exists (a :: pre), x, post. split; [rewrite H1; reflexivity|].
        split; [|split; assumption]. constructor; [|exact H2].
        rewrite E1. apply has_eq_app.
    + exists [], a, r. split; [reflexivity|]. split; [constructor|].
      split; [apply partition_eq_none, Ep|reflexivity].
Qed.

Lemma concat_schar : forall l, String.concat "" (map schar l) = of_list l.
Proof.
  induction l as [|c [|d r] IH]; [reflexivity|reflexivity|].
  change (String.concat "" (map schar (c :: d :: r)))
    with (schar c ++ "" ++ String.concat "" (map schar (d :: r))).
  rewrite IH. reflexivity.
Qed.

Lemma bytes_repr_plain : forall s,
  (forall c, In c (to_list s) ->
     (32 <= nat_of_ascii c <= 126)%nat /\ c <> "'"%char /\ c <> "\"%char) ->
  bytes_repr s = "b'" ++ s ++ "'".
Proof.
  intros s H. unfold bytes_repr, quote_repr.
  assert (Hq : has_char "'"%char s = false).
  { unfold has_char. apply not_true_iff_false. rewrite existsb_exists.
    intros [c [Hc Ee]]. apply Ascii.eqb_eq in Ee. subst c.
    destruct (H _ Hc) as [_ [Hn _]]. apply Hn. reflexivity. }
  rewrite Hq. cbn [andb].
  rewrite (map_ext_in _ schar).
  - rewrite concat_schar, of_to_list. reflexivity.
  - intros c Hc. destruct (H c Hc) as [[Hlo Hhi] [H1 H2]]. unfold escape_byte, code.
    rewrite (proj2 (Ascii.eqb_neq c "\"%char) H2), (proj2 (Ascii.eqb_neq c "'"%char) H1).
    assert (E10 : (nat_of_ascii c =? 10)%nat = false) by (apply Nat.eqb_neq; lia).
    assert (E13 : (nat_of_ascii c =? 13)%nat = false) by (apply Nat.eqb_neq; lia).
    assert (E9 : (nat_of_ascii c =? 9)%nat = false) by (apply Nat.eqb_neq; lia).
    assert (E32 : (nat_of_ascii c <? 32)%nat = false) by (apply Nat.ltb_ge; lia).
    assert (E127 : (nat_of_ascii c =? 127)%nat = false) by (apply Nat.eqb_neq; lia).
    assert (E128 : (128 <=? nat_of_ascii c)%nat = false) by (apply Nat.leb_gt; lia).
    rewrite E10, E13, E9, E32, E127, E128. reflexivity.
Qed.

(* ------------------------------------------------------------------ *)
(** ** Properties of command-line parsing and error formatting *)

(** [parse_list] on a list of [raw_string] items undoes the escaping of
    commas as [\,] (no item holding a backslash), and drops every empty
    item wherever it stands. *)
Theorem parse_list_escaped_items : forall ii fi items,
  Forall (fun u => has_char "\"%char u = false) items ->
  parse_argument ii fi (list_of (scalar "raw_string")) (join "," (map escape_csv_item items)) =
  COk (CList (map CStr (filter (fun s => negb (String.eqb s "")) items))).
Proof.
  intros ii fi items H.
  change (parse_argument ii fi (list_of (scalar "raw_string")) (join "," (map escape_csv_item items)))
    with (parse_guard (join "," (map escape_csv_item items)) "list"
      (let items' := filter (fun s => negb (String.eqb s ""))
                       (parse_csv_list_safely (join "," (map escape_csv_item items))) in
       match items', Some (scalar "raw_string") with
       | [], _ => COk (CList [])
       | _, None => CErr (PyErr (KeyError "item"))
       | _, Some it => cbind (parse_list_loop (parse_argument ii fi it) items')
                             (fun l => COk (CList l))
       end)).
  cbv zeta. rewrite csv_join_escaped by exact H.
  replace (filter (fun s => negb (String.eqb s ""))
             (if String.eqb (last items "") "" then removelast items else items))
    with (filter (fun s => negb (String.eqb s "")) items)
    by (destruct (String.eqb (last items "") "") eqn:E;
        [symmetry; apply filter_removelast_empty, E|reflexivity]).
  destruct (filter _ items) as [|x r]; [reflexivity|].
  rewrite parse_list_loop_raw. reflexivity.
Qed.

Lemma parse_list_escaped_items_witness :
  parse_argument py_int (fun _ => None) (list_of (scalar "raw_string"))
    (join "," (map escape_csv_item ["a,b"; ""; "c"])) = COk (CList [CStr "a,b"; CStr "c"]).
Proof.
  exact (parse_list_escaped_items py_int (fun _ => None) ["a,b"; ""; "c"]
           ltac:(repeat constructor)).
Defined.

(** [parse_argument] lets out only two kinds of exception: [AttributeError]
    when the parameter's type has no [parse_] handler, and a [UsageError]
    with error code 1 and the message [Couldn't parse value %r as %s]; every
    other failure, also inside a list or a mapping, is turned into the
    latter. *)
Theorem parse_argument_failures : forall ii fi p value e,
  parse_argument ii fi p value = CErr e ->
  e = PyErr (AttributeError ("parse_" ++ underscores (p_type p))) \/
  exists v ty, e = UsageError None
                     (Some ("Couldn't parse value " ++ str_repr v ++ " as " ++ ty ++ nl))
                     (Some 1%Z).
Proof. exact parse_argument_error_shape. Qed.

Lemma parse_argument_failures_witness :
  parse_argument py_int (fun _ => None) (scalar "integer") "x" =
  CErr (parse_failure "x" "integer") /\
  exists v ty, parse_failure "x" "integer" = UsageError None
                 (Some ("Couldn't parse value " ++ str_repr v ++ " as " ++ ty ++ nl))
                 (Some 1%Z).
Proof.
  split; [reflexivity|].
  destruct (parse_argument_failures py_int (fun _ => None) (scalar "integer") "x"
              (parse_failure "x" "integer") eq_refl) as [E|E]; [discriminate|exact E].
Defined.

(** [parse_list] fails with the error of its first non-empty item that
    fails: a [UsageError] raised for that item goes through unchanged,
    while any other exception of the item (such as [AttributeError] for an
    item type with no handler) becomes a [UsageError] about the whole list
    value. *)
Theorem parse_list_first_failure : forall ii fi it value pre x post e,
  filter (fun s => negb (String.eqb s "")) (parse_csv_list_safely value) =
    (pre ++ x :: post)%list ->
  Forall (fun y => exists v, parse_argument ii fi it y = COk v) pre ->
  parse_argument ii fi it x = CErr e ->
  parse_argument ii fi (list_of it) value =
  CErr (match e with
        | UsageError _ _ _ => e
        | PyErr _ => parse_failure value "list"
        end).
Proof.
  intros ii fi it value pre x post e Hf Hpre Hx.
  change (parse_argument ii fi (list_of it) value)
    with (parse_guard value "list"
      (let items := filter (fun s => negb (String.eqb s "")) (parse_csv_list_safely value) in
       match items, Some it with
       | [], _ => COk (CList [])
       | _, None => CErr (PyErr (KeyError "item"))
       | _, Some it => cbind (parse_list_loop (parse_argument ii fi it) items)
                             (fun l => COk (CList l))
       end)).
  cbv zeta. rewrite Hf.
  replace (match (pre ++ x :: post)%list with
           | [] => COk (CList [])
           | _ :: _ => cbind (parse_list_loop (parse_argument ii fi it) (pre ++ x :: post))
                             (fun l => COk (CList l))
           end)
    with (cbind (parse_list_loop (parse_argument ii fi it) (pre ++ x :: post))
                (fun l => COk (CList l)))
    by (destruct pre; reflexivity).
  rewrite (parse_list_loop_first _ _ _ _ _ Hpre Hx). cbn [cbind parse_guard].
  destruct e; reflexivity.
Qed.

Lemma parse_list_first_failure_witness :
  parse_argument py_int (fun _ => None) (list_of (scalar "integer")) "1,x,y" =
  CErr (parse_failure "x" "integer").
Proof.
  exact (parse_list_first_failure py_int (fun _ => None) (scalar "integer") "1,x,y"
           ["1"] "x" ["y"] (parse_failure "x" "integer") eq_refl
           ltac:(repeat constructor; eexists; reflexivity) eq_refl).
Defined.

(** [parse_mapping] on [raw_string] keys and values reads back comma-joined
    [k=v] pairs (commas escaped, no key holding [=], no backslash): each key
    appears once and gets the value of its last pair. *)
Theorem parse_mapping_last_wins : forall ii fi pairs,
  Forall (fun kv => has_char "="%char (fst kv) = false /\
                    has_char "\"%char (fst kv) = false /\
                    has_char "\"%char (snd kv) = false) pairs ->
  exists d,
    parse_argument ii fi (mapping_of (scalar "raw_string") (scalar "raw_string"))
      (join "," (map (fun kv => escape_csv_item (fst kv ++ "=" ++ snd kv)) pairs)) =
    COk (CMap (map (fun kv => (CStr (fst kv), CStr (snd kv))) d)) /\
    NoDup (map fst d) /\
    forall k v, dict_get d k = Some v <->
      exists pre post, pairs = (pre ++ (k, v) :: post)%list /\ ~ In k (map fst post).
Proof.
  intros ii fi pairs H.
  exists (fold_left (fun d kv => dict_set d (fst kv) (snd kv)) pairs []). split; [|split].
  - change (parse_argument ii fi (mapping_of (scalar "raw_string") (scalar "raw_string"))
              (join "," (map (fun kv => escape_csv_item (fst kv ++ "=" ++ snd kv)) pairs)))
      with (parse_guard
              (join "," (map (fun kv => escape_csv_item (fst kv ++ "=" ++ snd kv)) pairs))
              "mapping"
              (cbind (parse_mapping_loop (parse_argument ii fi (scalar "raw_string"))
                        (parse_argument ii fi (scalar "raw_string"))
                        (parse_csv_list_safely
                           (join "," (map (fun kv => escape_csv_item (fst kv ++ "=" ++ snd kv))
                                         pairs))) [])
                     (fun m => COk (CMap m)))).
    rewrite join_mapping_items by exact H.
    assert (Hf : Forall (fun kv => has_char "="%char (fst kv) = false) pairs)
      by (eapply Forall_impl; [|exact H]; intros kv [Hk _]; exact Hk).
    pose proof (parse_mapping_loop_raw ii fi pairs [] Hf) as E. cbn [map] in E.
    rewrite E. reflexivity.
  - apply fold_dict_set_nodup. constructor.
  - intros k v. rewrite fold_dict_set_get. split.
    + intros [E|[E _]]; [exact E|discriminate].
    + intros E. left. exact E.
Qed.

Lemma parse_mapping_last_wins_witness :
  exists d,
    parse_argument py_int (fun _ => None) (mapping_of (scalar "raw_string") (scalar "raw_string"))
      (join "," (map (fun kv => escape_csv_item (fst kv ++ "=" ++ snd kv))
                     [("a", "1"); ("b", "2"); ("a", "3")])) =
    COk (CMap (map (fun kv => (CStr (fst kv), CStr (snd kv))) d)) /\
    NoDup (map fst d) /\
    forall k v, dict_get d k = Some v <->
      exists pre post, [("a", "1"); ("b", "2"); ("a", "3")] = (pre ++ (k, v) :: post)%list /\
                       ~ In k (map fst post).
Proof.
  exact (parse_mapping_last_wins py_int (fun _ => None) [("a", "1"); ("b", "2"); ("a", "3")]
           ltac:(repeat constructor)).
Defined.

(** [call_arbitrary_action] splits each [KEY=VALUE] word at its first [=]
    and keeps, for each key, the value of its last word; a word without [=]
    makes it raise [ValueError] before anything is sent. *)
Theorem call_arbitrary_arguments_outcome : forall argument,
  match call_arbitrary_arguments argument [] with
  | Ok d =>
      exists pairs, map (fun kv => fst kv ++ "=" ++ snd kv) pairs = argument /\
      Forall (fun kv => has_char "="%char (fst kv) = false) pairs /\
      NoDup (map fst d) /\
      forall k v, dict_get d k = Some v <->
        exists pre post, pairs = (pre ++ (k, v) :: post)%list /\ ~ In k (map fst post)
  | Err e =>
      exists pre a post, argument = (pre ++ a :: post)%list /\
      Forall (fun x => has_char "="%char x = true) pre /\
      has_char "="%char a = false /\
      e = ValueError "not enough values to unpack (expected 2, got 1)"
  end.
Proof.
  intros argument. pose proof (call_arbitrary_arguments_go argument []) as G.
  destruct (call_arbitrary_arguments argument []) as [d|e]; [|exact G].
  destruct G as [pairs [H1 [H2 ->]]]. exists pairs. split; [exact H1|]. split; [exact H2|].
  split; [apply fold_dict_set_nodup; constructor|].
  intros k v. rewrite fold_dict_set_get. split.
  - intros [E|[E _]]; [exact E|discriminate].
  - intros E. left. exact E.
Qed.

(** [_format_api_error] encodes a [str] error code and message to [bytes]
    before formatting them with [%s]: when both are printable ASCII with no
    quote and no backslash, the text written shows each of them between
    [b'] and [']. *)
Theorem format_api_error_bytes_literal : forall code message,
  (forall c, In c (to_list code ++ to_list message) ->
     (32 <= nat_of_ascii c <= 126)%nat /\ c <> "'"%char /\ c <> "\"%char) ->
  format_api_error (mkAPIError (PStr code) (PStr message) None) =
  "Error code: b'" ++ code ++ "'" ++ nl ++ "Error message: b'" ++ message ++ "'" ++ nl.
Proof.
  intros code message H. cbn [format_api_error format_field py_str py_repr].
  rewrite !bytes_repr_plain by (intros c Hc; apply H, in_or_app; auto).
  rewrite string_app_nil. rewrite <- !string_app_assoc. reflexivity.
Qed.

Lemma format_api_error_bytes_literal_witness :
  format_api_error (mkAPIError (PStr "UnknownComputer") (PStr "No computer") None) =
  "Error code: b'UnknownComputer'" ++ nl ++ "Error message: b'No computer'" ++ nl.
Proof.
  exact (format_api_error_bytes_literal "UnknownComputer" "No computer"
           ltac:(intros c Hc; simpl in Hc;
                 repeat (destruct Hc as [<-|Hc]; [split; [cbn; lia|split; discriminate]|]);
                 destruct Hc)).
Defined.

(* ------------------------------------------------------------------ *)
(** ** Errors raised by [run_query] *)

(** [run_query] against the module-level [errors] (the taxonomy built from
    the schema, then the five classes registered at the end of the module),
    when the API answers with an error code whose normalised name is not
    [MultiError]: the error is raised as the kind named by the normalised
    code when the schema declares a code with that name or when it is
    [SignatureDoesNotMatchError], [AuthFailureError] or
    [InvalidCredentialsError], and as the plain [HTTPError] otherwise
    (also for the code [Unauthorised], whose class is registered under a name
    that does not end with [Error]). *)
Theorem run_query_error_kind : forall nfkc hmac fetch s reg ak sk action params uri
    version ts u body sh status msg code,
  handlers_have_errors s = true ->
  module_errors s = Ok reg ->
  get_error_code_name code <> "MultiError" ->
  fst (sign_request nfkc hmac ak sk action params uri version ts) = Ok (u, body, sh) ->
  fetch u body sh = HTTPFail status msg (Some code) ->
  fst (run_query nfkc hmac fetch reg ak sk action params uri version ts) =
  if existsb (String.eqb (get_error_code_name code))
       ["SignatureDoesNotMatchError"; "AuthFailureError"; "InvalidCredentialsError"] ||
     existsb (fun c => String.eqb (get_error_code_name c) (get_error_code_name code))
             (declared_codes s)
  then Err (APIErr (get_error_code_name code) status msg)
  else Err (HTTPErr status msg).
Proof.
  intros nfkc hmac fetch s reg ak sk action params uri version ts u body sh status msg
    code Hs Hb Hm Hsign Hf.
  unfold module_errors in Hb. rewrite build_exceptions_from_ok in Hb by exact Hs.
  cbn [bind] in Hb. injection Hb as <-.
  unfold run_query.
  destruct (sign_request nfkc hmac ak sk action params uri version ts) as [signed p'].
  cbn [fst] in *. subst signed. cbn [bind]. rewrite Hf.
  rewrite (lookup_error_name _ _ (get_error_code_name_ends code)).
  cbn [builtin_errors fold_left fst snd]. unfold add_error. rewrite !dict_get_set.
  assert (Hu : get_error_code_name code <> "Unauthorised").
  { intros E. pose proof (get_error_code_name_ends code) as H. rewrite E in H.
    vm_compute in H. discriminate H. }
  destruct (register_fold (declared_codes s) [] 0 (get_error_code_name code)) as [H _].
  unfold registry in *. rewrite H. cbn [dict_get existsb].
  destruct (String.eqb_spec (get_error_code_name code) "InvalidCredentialsError") as [->|];
    [reflexivity|].
  destruct (String.eqb_spec (get_error_code_name code) "AuthFailureError") as [->|];
    [reflexivity|].
  destruct (String.eqb_spec (get_error_code_name code) "SignatureDoesNotMatchError") as [->|];
    [reflexivity|].
  destruct (String.eqb_spec (get_error_code_name code) "Unauthorised") as [E|]; [contradiction|].
  destruct (String.eqb_spec (get_error_code_name code) "MultiError") as [E|]; [contradiction|].
  cbn [orb]. destruct (existsb _ _); reflexivity.
Qed.

Lemma run_query_error_kind_witness :
  handlers_have_errors [("GetComputers", [("2011-08-01", Some ["UnknownComputer"])])] = true /\
  module_errors [("GetComputers", [("2011-08-01", Some ["UnknownComputer"])])] =
    Ok [("UnknownComputerError", mkKind "UnknownComputerError" 0);
        ("MultiError", mkKind "MultiError" 1);
        ("Unauthorised", mkKind "UnauthorisedError" 2);
        ("SignatureDoesNotMatchError", mkKind "SignatureDoesNotMatchError" 3);
        ("AuthFailureError", mkKind "AuthFailureError" 4);
        ("InvalidCredentialsError", mkKind "InvalidCredentialsError" 5)] /\
  get_error_code_name "AuthFailure" <> "MultiError" /\
  fst (sign_request (fun _ => true) (fun _ _ => "sig") "AK" "SK" "GetComputers" []
         "https://landscape.example.com/api/" "2011-08-01" "2024-01-02T03:04:05Z") =
    Ok ("https://landscape.example.com/api/",
        "access_key_id=AK&action=GetComputers&signature_method=HmacSHA256&signature_version=2&timestamp=2024-01-02T03%3A04%3A05Z&version=2011-08-01&signature=c2ln",
        "landscape.example.com") /\
  fst (run_query (fun _ => true) (fun _ _ => "sig")
         (fun _ _ _ => HTTPFail 401 "{}" (Some "AuthFailure"))
         [("UnknownComputerError", mkKind "UnknownComputerError" 0);
          ("MultiError", mkKind "MultiError" 1);
          ("Unauthorised", mkKind "UnauthorisedError" 2);
          ("SignatureDoesNotMatchError", mkKind "SignatureDoesNotMatchError" 3);
          ("AuthFailureError", mkKind "AuthFailureError" 4);
          ("InvalidCredentialsError", mkKind "InvalidCredentialsError" 5)]
         "AK" "SK" "GetComputers" [] "https://landscape.example.com/api/" "2011-08-01"
         "2024-01-02T03:04:05Z") =
    Err (APIErr "AuthFailureError" 401 "{}").
Proof.
  assert (H1 : handlers_have_errors [("GetComputers", [("2011-08-01", Some ["UnknownComputer"])])] = true)
    by reflexivity.
  assert (H2 : module_errors [("GetComputers", [("2011-08-01", Some ["UnknownComputer"])])] =
    Ok [("UnknownComputerError", mkKind "UnknownComputerError" 0);
        ("MultiError", mkKind "MultiError" 1);
        ("Unauthorised", mkKind "UnauthorisedError" 2);
        ("SignatureDoesNotMatchError", mkKind "SignatureDoesNotMatchError" 3);
        ("AuthFailureError", mkKind "AuthFailureError" 4);
        ("InvalidCredentialsError", mkKind "InvalidCredentialsError" 5)])
    by (vm_compute; reflexivity).
  assert (H3 : get_error_code_name "AuthFailure" <> "MultiError") by (vm_compute; discriminate).
  assert (H4 : fst (sign_request (fun _ => true) (fun _ _ => "sig") "AK" "SK" "GetComputers" []
         "https://landscape.example.com/api/" "2011-08-01" "2024-01-02T03:04:05Z") =
    Ok ("https://landscape.example.com/api/",
        "access_key_id=AK&action=GetComputers&signature_method=HmacSHA256&signature_version=2&timestamp=2024-01-02T03%3A04%3A05Z&version=2011-08-01&signature=c2ln",
        "landscape.example.com")) by (vm_compute; reflexivity).
  split; [exact H1|]. split; [exact H2|]. split; [exact H3|]. split; [exact H4|].
  exact (run_query_error_kind (fun _ => true) (fun _ _ => "sig")
           (fun _ _ _ => HTTPFail 401 "{}" (Some "AuthFailure"))
           [("GetComputers", [("2011-08-01", Some ["UnknownComputer"])])] _
           "AK" "SK" "GetComputers" [] "https://landscape.example.com/api/" "2011-08-01"
           "2024-01-02T03:04:05Z" _ _ _ 401 "{}" "AuthFailure"
           H1 H2 H3 H4 eq_refl).
Defined.
